(** * certify: issuer configuration types and Vault wire encoders

    A shallow embedding of

    - [cmd/proxy/internal/envtypes/issuer.go]: the [Issuer] and [AuthMethod]
      enumerations with their [UnmarshalText] methods, and the [Vault]
      configuration record;
    - [issuers/vault/types.go]: [ConstantToken.SetToken], the [csrOpts]
      request record and the [otherSans] / [ttl] JSON encoders.

    Go strings are byte sequences and are modelled by [string] (a list of
    8-bit characters).  A Go [error] is [option string]: [None] is [nil]
    and [Some msg] is [errors.New msg].  A method with a pointer receiver
    takes the value stored behind the pointer and returns the new one next
    to its result. *)

From Stdlib Require Import ZArith NArith List String Ascii Bool Lia.
Import ListNotations.

Local Open Scope string_scope.
Local Open Scope Z_scope.

(** The double-quote byte, as a one-byte string. *)
Definition dq : string := String "034"%char EmptyString.

(** Go's [error] interface restricted to what the sources build:
    [nil] and [errors.New]. *)
Definition error : Type := option string.
Definition nil_error : error := None.

Module errors.
Definition New (text : string) : error := Some text.
End errors.

(** ** Package [strings] of the Go standard library *)

Module strings.

Definition byte_val (c : ascii) : N := N_of_ascii c.

(** [c >= utf8.RuneSelf] fails: the byte is a one-byte rune. *)
Definition isASCIIByte (c : ascii) : bool := (byte_val c <? 128)%N.

Fixpoint isASCII (s : string) : bool :=
  match s with
  | EmptyString => true
  | String c rest => isASCIIByte c && isASCII rest
  end.

(** ['A' <= c && c <= 'Z'], then [c += 'a' - 'A']. *)
Definition lowerByte (c : ascii) : ascii :=
  if ((65 <=? byte_val c) && (byte_val c <=? 90))%N
  then ascii_of_N (byte_val c + 32)
  else c.

Fixpoint lowerBytes (s : string) : string :=
  match s with
  | EmptyString => EmptyString
  | String c rest => String (lowerByte c) (lowerBytes rest)
  end.

Section ToLower.
(** [strings.Map(unicode.ToLower, s)], the path [ToLower] takes when
    the input holds a byte outside ASCII.  It depends on the Unicode
    case tables and stays a parameter. *)
Variable mapUnicodeLower : string -> string.

(** [strings.ToLower]: inputs made of ASCII bytes only have their
    upper-case letters replaced, byte by byte. *)
Definition ToLower (s : string) : string :=
  if isASCII s then lowerBytes s else mapUnicodeLower s.
End ToLower.

(** [strings.Join]. *)
Fixpoint Join (elems : list string) (sep : string) : string :=
  match elems with
  | [] => EmptyString
  | [e] => e
  | e :: rest => e ++ sep ++ Join rest sep
  end.



(** [strings.Split(s, sep)] for a separator of one byte: the fields
    between the occurrences of [sep], in order.  The result always has
    one field more than [s] has separators; the empty string has one
    field, itself empty. *)
Fixpoint SplitByte (s : string) (sep : ascii) : list string :=
  match s with
  | EmptyString => [EmptyString]
  | String c rest =>
      if Ascii.eqb c sep then EmptyString :: SplitByte rest sep
      else match SplitByte rest sep with
           | [] => [String c EmptyString]
           | field :: fields => String c field :: fields
           end
  end.

End strings.

(** ** Package [time] of the Go standard library *)

Module time.

(** [type Duration int64], a count of nanoseconds. *)
Definition Duration : Type := Z.

Definition Nanosecond : Duration := 1.
Definition Microsecond : Duration := 1000 * Nanosecond.
Definition Millisecond : Duration := 1000 * Microsecond.
Definition Second : Duration := 1000 * Millisecond.
Definition Minute : Duration := 60 * Second.
Definition Hour : Duration := 60 * Minute.

(** Conversion to [uint64] and its wrap-around arithmetic. *)
Definition uint64 (x : Z) : Z := x mod 2 ^ 64.

(** [byte(digit) + '0'] *)
Definition digitByte (digit : Z) : ascii := ascii_of_N (Z.to_N digit + 48).

(** The loop of [fmtFrac]: [buf] is the part of the buffer already
    written, which grows to the left. *)
Fixpoint fmtFrac_loop (prec : nat) (buf : string) (v : Z) (print : bool)
  : string * Z * bool :=
  match prec with
  | O => (buf, v, print)
  | S prec' =>
      let digit := v mod 10 in
      let print := print || negb (digit =? 0) in
      let buf := if print then String (digitByte digit) buf else buf in
      fmtFrac_loop prec' buf (v / 10) print
  end.

(** [fmtFrac]: the fraction of [v / 10^prec] without trailing zeros,
    and without the decimal point when the fraction is zero. *)
Definition fmtFrac (buf : string) (v : Z) (prec : nat) : string * Z :=
  let '(buf, v, print) := fmtFrac_loop prec buf v false in
  ((if print then String "."%char buf else buf), v).

(** The loop [for v > 0] of [fmtInt]. *)
Fixpoint fmtInt_loop (fuel : nat) (buf : string) (v : Z) : string :=
  match fuel with
  | O => buf
  | S fuel' =>
      if 0 <? v
      then fmtInt_loop fuel' (String (digitByte (v mod 10)) buf) (v / 10)
      else buf
  end.

(** A [uint64] has at most twenty decimal digits. *)
Definition uint64_digits : nat := 20.

Definition fmtInt (buf : string) (v : Z) : string :=
  if v =? 0 then String "0"%char buf else fmtInt_loop uint64_digits buf v.

(** The two bytes of U+00B5, the micro sign, followed by [s]. *)
Definition micro_s : string :=
  String "194"%char (String "181"%char "s").

(** [func (d Duration) String() string] *)
Definition Duration_String (d : Duration) : string :=
  let neg := d <? 0 in
  let u := uint64 d in
  let u := if neg then uint64 (- u) else u in
  if u =? 0 then "0s"
  else
    let body :=
      if u <? uint64 Second then
        let '(prec, buf) :=
          if u <? uint64 Microsecond then (0%nat, "ns")
          else if u <? uint64 Millisecond then (3%nat, micro_s)
          else (6%nat, "ms") in
        let '(buf, u) := fmtFrac buf u prec in
        fmtInt buf u
      else
        let '(buf, u) := fmtFrac "s" u 9 in
        let buf := fmtInt buf (u mod 60) in
        let u := u / 60 in
        if 0 <? u then
          let buf := fmtInt (String "m"%char buf) (u mod 60) in
          let u := u / 60 in
          if 0 <? u then fmtInt (String "h"%char buf) u else buf
        else buf in
    if neg then String "-"%char body else body.

(** *** [time.ParseDuration] *)

Inductive parse_failure : Type :=
| InvalidDuration (orig : string)
| MissingUnit (orig : string)
| UnknownUnit (unit orig : string).

Definition isDigit (c : ascii) : bool :=
  ((48 <=? N_of_ascii c) && (N_of_ascii c <=? 57))%N.

Definition byteZ (c : ascii) : Z := Z.of_N (N_of_ascii c).

(** [leadingInt]: the leading digits of [s] as a number, and the rest;
    [None] is [errLeadingInt]. *)
Fixpoint leadingInt_from (x : Z) (s : string) : option (Z * string) :=
  match s with
  | EmptyString => Some (x, EmptyString)
  | String c rest =>
      if negb (isDigit c) then Some (x, s)
      else if 2 ^ 63 / 10 <? x then None
      else
        let x := uint64 (x * 10 + byteZ c - 48) in
        if 2 ^ 63 <? x then None else leadingInt_from x rest
  end.

Definition leadingInt (s : string) : option (Z * string) :=
  leadingInt_from 0 s.

(** [leadingFraction]: never fails, it stops accumulating on overflow.
    [scale] is a power of ten below [10^20], which [float64] holds
    exactly. *)
Fixpoint leadingFraction_from (x scale : Z) (overflow : bool) (s : string)
  : Z * Z * string :=
  match s with
  | EmptyString => (x, scale, EmptyString)
  | String c rest =>
      if negb (isDigit c) then (x, scale, s)
      else if overflow then leadingFraction_from x scale overflow rest
      else if (2 ^ 63 - 1) / 10 <? x
           then leadingFraction_from x scale true rest
      else
        let y := uint64 (x * 10 + byteZ c - 48) in
        if 2 ^ 63 <? y then leadingFraction_from x scale true rest
        else leadingFraction_from y (scale * 10) overflow rest
  end.

Definition leadingFraction (s : string) : Z * Z * string :=
  leadingFraction_from 0 1 false s.

(** The unit of a term: the bytes up to the next ['.'] or digit. *)
Fixpoint unitSpan (s : string) : string * string :=
  match s with
  | EmptyString => (EmptyString, EmptyString)
  | String c rest =>
      if Ascii.eqb c "."%char || isDigit c then (EmptyString, s)
      else let '(u, rest') := unitSpan rest in (String c u, rest')
  end.

(** [unitMap]; the micro sign U+00B5 and the Greek letter mu U+03BC are
    both accepted before [s]. *)
Definition unitMap (u : string) : option Z :=
  if String.eqb u "ns" then Some (uint64 Nanosecond)
  else if String.eqb u "us" then Some (uint64 Microsecond)
  else if String.eqb u micro_s then Some (uint64 Microsecond)
  else if String.eqb u (String "206"%char (String "188"%char "s"))
       then Some (uint64 Microsecond)
  else if String.eqb u "ms" then Some (uint64 Millisecond)
  else if String.eqb u "s" then Some (uint64 Second)
  else if String.eqb u "m" then Some (uint64 Minute)
  else if String.eqb u "h" then Some (uint64 Hour)
  else None.

(** The optional fraction of a term: the digits after a decimal point,
    their scale, the rest, and whether a digit was consumed. *)
Definition fraction (s1 : string) : Z * Z * string * bool :=
  match s1 with
  | String "."%char s1' =>
      let '(f, scale, s2) := leadingFraction s1' in
      (f, scale, s2, negb (String.length s1' =? String.length s2)%nat)
  | _ => (0, 1, s1, false)
  end.

Section ParseDuration.
(** [uint64(float64(f) * (float64(unit) / scale))], the nanoseconds of
    a fractional part; floating point, kept as a parameter. *)
Variable fractionNanos : Z -> Z -> Z -> Z.

(** One turn of the loop over the remaining input parses a term [v.f unit] and
    adds it to [d].  Every turn consumes at least the unit, so the
    length of the input bounds the number of turns. *)
Fixpoint parseTerms (fuel : nat) (orig s : string) (d : Z)
  : Z + parse_failure :=
  match s with
  | EmptyString => inl d
  | String c0 _ =>
      match fuel with
      | O => inr (InvalidDuration orig)
      | S fuel' =>
          if negb (Ascii.eqb c0 "."%char || isDigit c0)
          then inr (InvalidDuration orig)
          else
            match leadingInt s with
            | None => inr (InvalidDuration orig)
            | Some (v, s1) =>
                let pre := negb (String.length s =? String.length s1)%nat in
                let '(f, scale, s2, post) := fraction s1 in
                if negb pre && negb post then inr (InvalidDuration orig)
                else
                  let '(u, s3) := unitSpan s2 in
                  if String.eqb u EmptyString then inr (MissingUnit orig)
                  else
                    match unitMap u with
                    | None => inr (UnknownUnit u orig)
                    | Some unit =>
                        if 2 ^ 63 / unit <? v
                        then inr (InvalidDuration orig)
                        else
                          let v := uint64 (v * unit) in
                          let v' :=
                            if 0 <? f
                            then uint64 (v + fractionNanos f unit scale)
                            else v in
                          if (0 <? f) && (2 ^ 63 <? v')
                          then inr (InvalidDuration orig)
                          else
                            let d := uint64 (d + v') in
                            if 2 ^ 63 <? d then inr (InvalidDuration orig)
                            else parseTerms fuel' orig s3 d
                    end
            end
      end
  end.

(** [func ParseDuration(s string) (Duration, error)] *)
Definition ParseDuration (orig : string) : Duration + parse_failure :=
  let '(neg, s) :=
    match orig with
    | String "-"%char s => (true, s)
    | String "+"%char s => (false, s)
    | _ => (false, orig)
    end in
  if String.eqb s "0" then inl 0
  else if String.eqb s EmptyString then inr (InvalidDuration orig)
  else
    match parseTerms (String.length s) orig s 0 with
    | inr e => inr e
    | inl d =>
        if neg then inl (- d)
        else if 2 ^ 63 - 1 <? d then inr (InvalidDuration orig)
        else inl d
    end.
End ParseDuration.

End time.

(** ** Package [api] of the Vault client library *)

Module api.

(** [api.Client]: the token it sends with its requests, and the rest of
    its state (address, headers, HTTP client, ...), which [SetToken]
    does not touch. *)
Record Client (Rest : Type) : Type := mkClient {
  rest : Rest;
  token : string
}.

Arguments mkClient {Rest} _ _.
Arguments rest {Rest} _.
Arguments token {Rest} _.

(** [func (c *Client) SetToken(v string)] *)
Definition Client_SetToken {Rest : Type} (c : Client Rest) (v : string)
  : Client Rest :=
  mkClient (rest c) v.

End api.

(** ** Package [encoding/json]: what a struct encoder writes *)

Module json.

(** The value of one member of an encoded object: a string or a boolean
    handed to the built-in encoders, or the bytes written for a field
    whose type has a [MarshalJSON] method. *)
Inductive value : Type :=
| String_ (s : string)
| Bool_ (b : bool)
| Marshaled (raw : string).

(** The members of an object, in the order they are written. *)
Definition object : Type := list (string * value).

Definition keys (o : object) : list string := map fst o.

(** [isEmptyValue] for a slice and for an integer, the test behind the
    [omitempty] tag option. *)
Definition isEmptySlice {A : Type} (l : list A) : bool :=
  (List.length l =? 0)%nat.

Definition isEmptyInt (n : Z) : bool := n =? 0.

(** *** Compaction of the bytes a [MarshalJSON] method returns

    [json.Marshal] does not write those bytes as they are: it runs them
    through [appendCompact] with HTML escaping on, which checks them
    with the scanner, drops the insignificant white space and replaces
    the bytes of [<], [>], [&], U+2028 and U+2029 by [\u] escapes.  A
    scanner error makes [json.Marshal] fail. *)

(** [SyntaxError], without its offset. *)
Inductive SyntaxError : Type :=
| InvalidCharacter (c : ascii) (context : string)
| UnexpectedEnd.

(** [MarshalerError]: the type whose method was called, and either the
    error of the method or that of the scanner on what it returned. *)
Inductive MarshalerCause : Type :=
| MethodFailed (message : string)
| InvalidJSON (err : SyntaxError).

Inductive MarshalerError : Type :=
| mkMarshalerError (typeName : string) (cause : MarshalerCause).

(** The states the scanner goes through on a value that begins with a
    double quote: [stateInString], [stateInStringEsc],
    [stateInStringEscU] to [stateInStringEscU123], [stateEndValue]
    outside any array or object, and [stateEndTop]. *)
Inductive scanState : Type :=
| InString
| InStringEsc
| InStringEscU
| InStringEscU1
| InStringEscU12
| InStringEscU123
| EndValue
| EndTop.

Definition isSpace (c : ascii) : bool :=
  existsb (Ascii.eqb c) [" "%char; "009"%char; "013"%char; "010"%char].

Definition isHex (c : ascii) : bool :=
  let n := N_of_ascii c in
  (((48 <=? n) && (n <=? 57)) || ((97 <=? n) && (n <=? 102))
   || ((65 <=? n) && (n <=? 70)))%N.

Definition hexStep (next : scanState) (c : ascii)
  : scanState * bool + SyntaxError :=
  if isHex c then inl (next, false)
  else inr (InvalidCharacter c "in \u hexadecimal character escape").

(** One call of [s.step]: the next state and whether the byte is
    skipped (the scanner answers [scanEnd] on white space after the
    value), or the error it records. *)
Definition step (st : scanState) (c : ascii)
  : scanState * bool + SyntaxError :=
  match st with
  | InString =>
      if Ascii.eqb c "034"%char then inl (EndValue, false)
      else if Ascii.eqb c "092"%char then inl (InStringEsc, false)
      else if (N_of_ascii c <? 32)%N
           then inr (InvalidCharacter c "in string literal")
      else inl (InString, false)
  | InStringEsc =>
      if existsb (Ascii.eqb c)
           ["b"%char; "f"%char; "n"%char; "r"%char; "t"%char;
            "092"%char; "/"%char; "034"%char]
      then inl (InString, false)
      else if Ascii.eqb c "u"%char then inl (InStringEscU, false)
      else inr (InvalidCharacter c "in string escape code")
  | InStringEscU => hexStep InStringEscU1 c
  | InStringEscU1 => hexStep InStringEscU12 c
  | InStringEscU12 => hexStep InStringEscU123 c
  | InStringEscU123 => hexStep InString c
  | EndValue | EndTop =>
      if isSpace c then inl (EndTop, true)
      else inr (InvalidCharacter c "after top-level value")
  end.

(** [scan.eof]: at the end of the input the scanner is fed one space;
    the value must be complete by then. *)
Definition eof (st : scanState) : option SyntaxError :=
  match st with
  | EndTop => None
  | _ =>
      match step st " "%char with
      | inl (EndTop, _) => None
      | inl _ => Some UnexpectedEnd
      | inr e => Some e
      end
  end.

(** The HTML escaping of [appendCompact] at a byte [c] followed by
    [rest]: the text written in its place and the number of following
    bytes the text stands for as well. *)
Definition htmlEscape (c : ascii) (rest : string) : option (string * nat) :=
  if Ascii.eqb c "<"%char then Some ("\u003c", 0%nat)
  else if Ascii.eqb c ">"%char then Some ("\u003e", 0%nat)
  else if Ascii.eqb c "&"%char then Some ("\u0026", 0%nat)
  else if Ascii.eqb c "226"%char then
    match rest with
    | String x (String y _) =>
        if Ascii.eqb x "128"%char && Ascii.eqb y "168"%char
        then Some ("\u2028", 2%nat)
        else if Ascii.eqb x "128"%char && Ascii.eqb y "169"%char
             then Some ("\u2029", 2%nat)
        else None
    | _ => None
    end
  else None.

(** The loop of [appendCompact] from a scanner state: [covered] counts
    the bytes still to come that an escape already stands for. *)
Fixpoint compactFrom (st : scanState) (covered : nat) (src : string)
  : string + SyntaxError :=
  match src with
  | EmptyString =>
      match eof st with
      | None => inl EmptyString
      | Some e => inr e
      end
  | String c rest =>
      match step st c with
      | inr e => inr e
      | inl (st', skipped) =>
          let '(piece, covered') :=
            match htmlEscape c rest with
            | Some (text, n) => (text, n)
            | None =>
                (if (0 <? covered)%nat || skipped then EmptyString
                 else String c EmptyString,
                 Nat.pred covered)
            end in
          match compactFrom st' covered' rest with
          | inl out => inl (piece ++ out)
          | inr e => inr e
          end
      end
  end.

Section Compact.
(** [appendCompact] on bytes that do not begin with a double quote
    (numbers, literals, arrays, objects); the methods of this package
    never return such bytes. *)
Variable compactOther : string -> string + SyntaxError.

(** [appendCompact(dst, src, true)]: the compacted bytes or the error
    of the scanner.  The opening quote takes the scanner from
    [stateBeginValue] to [stateInString] and is copied. *)
Definition compact (src : string) : string + SyntaxError :=
  match src with
  | String "034"%char rest =>
      match compactFrom InString 0 rest with
      | inl out => inl (String "034"%char out)
      | inr e => inr e
      end
  | _ => compactOther src
  end.
End Compact.

End json.

(** ** Package [vault] *)

Module vault.

(** [type ConstantToken string] *)
Definition ConstantToken : Type := string.

(** [func (c ConstantToken) SetToken(_ context.Context, cli *api.Client) error]:
    the client after the call, and the error returned. *)
Definition ConstantToken_SetToken {Rest : Type}
  (c : ConstantToken) (cli : api.Client Rest) : api.Client Rest * error :=
  (api.Client_SetToken cli c, nil_error).

(** [type otherSans []string]; a nil slice and an empty one are both the
    empty list. *)
Definition otherSans : Type := list string.

(** [func (o otherSans) MarshalJSON() ([]byte, error)] *)
Definition otherSans_MarshalJSON (o : otherSans) : string * error :=
  (dq ++ strings.Join o "," ++ dq, nil_error).

(** [type ttl time.Duration] *)
Definition ttl : Type := time.Duration.

(** [func (t ttl) MarshalJSON() ([]byte, error)] *)
Definition ttl_MarshalJSON (t : ttl) : string * error :=
  (dq ++ time.Duration_String t ++ dq, nil_error).

Record csrOpts : Type := mkCsrOpts {
  CSR : string;
  CommonName : string;
  ExcludeCNFromSANS : bool;
  Format : string;
  URISans : otherSans;
  OtherSans : otherSans;
  TimeToLive : ttl
}.

Section Marshal.
Variable compactOther : string -> string + json.SyntaxError.

(** [marshalerEncoder]: a member written through the [MarshalJSON]
    method of the type [typeName].  The error of the method aborts the
    encoding, and so does the error of the scanner on the bytes the
    method returned; otherwise the member holds those bytes after
    compaction. *)
Definition marshaledMember (key typeName : string) (r : string * error)
  : json.object + json.MarshalerError :=
  match r with
  | (raw, None) =>
      match json.compact compactOther raw with
      | inl out => inl [(key, json.Marshaled out)]
      | inr e => inr (json.mkMarshalerError typeName (json.InvalidJSON e))
      end
  | (_, Some msg) =>
      inr (json.mkMarshalerError typeName (json.MethodFailed msg))
  end.

(** A member tagged [omitempty]: skipped when its value is empty, before
    any encoder runs. *)
Definition omitempty (empty : bool) (m : json.object + json.MarshalerError)
  : json.object + json.MarshalerError :=
  if empty then inl [] else m.

(** The members are written in order; the first error ends the
    encoding. *)
Definition andThen (m1 m2 : json.object + json.MarshalerError)
  : json.object + json.MarshalerError :=
  match m1 with
  | inr e => inr e
  | inl o1 => match m2 with
              | inr e => inr e
              | inl o2 => inl (o1 ++ o2)%list
              end
  end.

(** The members [json.Marshal] writes for a [csrOpts], following the
    [json] tags of its fields in declaration order, or the error it
    returns instead of any output. *)
Definition csrOpts_members (o : csrOpts)
  : json.object + json.MarshalerError :=
  andThen (inl [("csr", json.String_ (CSR o));
                ("common_name", json.String_ (CommonName o));
                ("exclude_cn_from_sans", json.Bool_ (ExcludeCNFromSANS o));
                ("format", json.String_ (Format o))])
  (andThen (omitempty (json.isEmptySlice (URISans o))
              (marshaledMember "uri_sans" "vault.otherSans"
                 (otherSans_MarshalJSON (URISans o))))
  (andThen (omitempty (json.isEmptySlice (OtherSans o))
              (marshaledMember "other_sans" "vault.otherSans"
                 (otherSans_MarshalJSON (OtherSans o))))
           (omitempty (json.isEmptyInt (TimeToLive o))
              (marshaledMember "ttl" "vault.ttl"
                 (ttl_MarshalJSON (TimeToLive o)))))).
End Marshal.

(** Reading a SAN list back from its wire form, in the words of the
    specification: the comma-joined string is what stands between the
    two quotes, and it is split on commas. *)
Fixpoint dropClosingQuote (s : string) : option string :=
  match s with
  | EmptyString => None
  | String c EmptyString =>
      if Ascii.eqb c "034"%char then Some EmptyString else None
  | String c rest => option_map (String c) (dropClosingQuote rest)
  end.

Definition unquote (wire : string) : option string :=
  match wire with
  | String "034"%char body => dropClosingQuote body
  | _ => None
  end.

Definition splitOnCommas (encoded : string) : list string :=
  strings.SplitByte encoded ","%char.

Definition otherSans_decode (wire : string) : option (list string) :=
  option_map splitOnCommas (unquote wire).

(** A string that holds no comma. *)
Fixpoint commaFree (s : string) : bool :=
  match s with
  | EmptyString => true
  | String c rest => negb (Ascii.eqb c ","%char) && commaFree rest
  end.

Definition nonEmpty (s : string) : bool :=
  negb (String.eqb s EmptyString).

End vault.

(** ** Package [net/url] *)

Module url.

(** [url.URL], by its textual components. *)
Record URL : Type := mkURL {
  Scheme : string;
  Opaque : string;
  Host : string;
  Path : string;
  RawQuery : string;
  Fragment : string
}.

Definition zero : URL :=
  mkURL EmptyString EmptyString EmptyString EmptyString EmptyString
        EmptyString.

Definition isZero (u : URL) : bool :=
  String.eqb (Scheme u) EmptyString && String.eqb (Opaque u) EmptyString
  && String.eqb (Host u) EmptyString && String.eqb (Path u) EmptyString
  && String.eqb (RawQuery u) EmptyString
  && String.eqb (Fragment u) EmptyString.

End url.

(** A [switch] case listing several string constants. *)
Definition case_of (tag : string) (labels : list string) : bool :=
  existsb (String.eqb tag) labels.

(** ** Package [envtypes]: enumerations *)

Module envtypes.

(** [iota] at a given position of a [const] block. *)
Definition iota (position : nat) : Z := Z.of_nat position.

(** [type Issuer int] *)
Definition Issuer : Type := Z.

Definition VaultIssuer : Issuer := iota 0.
Definition CFSSLIssuer : Issuer := iota 1.
Definition AWSIssuer : Issuer := iota 2.

(** [type AuthMethod int] *)
Definition AuthMethod : Type := Z.

Definition UnknownAuthMethod : AuthMethod := iota 0.
Definition ConstantTokenAuthMethod : AuthMethod := iota 1.
Definition RenewingTokenAuthMethod : AuthMethod := iota 2.

(** The zero value of an integer type, held by a variable or a record
    field that was never assigned. *)
Definition zero_int : Z := 0.
Definition Issuer_zero : Issuer := zero_int.
Definition AuthMethod_zero : AuthMethod := zero_int.

Definition invalid_issuer_message : string :=
  "invalid issuer specified, supported issuers are "
  ++ dq ++ "vault" ++ dq ++ ", " ++ dq ++ "cfssl" ++ dq
  ++ " and " ++ dq ++ "aws" ++ dq.

Section Unmarshal.
Variable mapUnicodeLower : string -> string.

(** [func (i *Issuer) UnmarshalText(in []byte) error]: the first
    component is the value of [*i] when the method returns. *)
Definition Issuer_UnmarshalText (i : Issuer) (in_ : string)
  : Issuer * error :=
  let tag := strings.ToLower mapUnicodeLower in_ in
  if case_of tag ["vault"; "hashicorp"] then (VaultIssuer, nil_error)
  else if case_of tag ["cfssl"; "cloudflare"] then (CFSSLIssuer, nil_error)
  else if case_of tag ["aws"; "amazon"; "acmpca"; "awscmpca"]
       then (AWSIssuer, nil_error)
  else (i, errors.New invalid_issuer_message).

(** [func (am *AuthMethod) UnmarshalText(in []byte) error] *)
Definition AuthMethod_UnmarshalText (am : AuthMethod) (in_ : string)
  : AuthMethod * error :=
  let tag := strings.ToLower mapUnicodeLower in_ in
  if case_of tag ["constant"; "token"; "constant_token"]
  then (ConstantTokenAuthMethod, nil_error)
  else if case_of tag ["renewing"; "renewing_token"]
       then (RenewingTokenAuthMethod, nil_error)
  else (UnknownAuthMethod, nil_error).
End Unmarshal.

(** ** Package [envtypes]: configuration records *)

(** The anonymous struct of the field [AuthMethodRenewingToken].  Its
    field [TimeToLive] is [RenewingTimeToLive] here, and the field
    [AuthMethod] of [Vault] is [VaultAuthMethod]: projections of one
    module share a name space with its types. *)
Record RenewingToken : Type := mkRenewingToken {
  Initial : string;
  RenewBefore : time.Duration;
  RenewingTimeToLive : time.Duration
}.

(** [type Vault struct] *)
Record Vault : Type := mkVault {
  URL : url.URL;
  Token : string;
  VaultAuthMethod : AuthMethod;
  AuthMethodRenewingToken : RenewingToken;
  AuthMethodConstantToken : vault.ConstantToken;
  Mount : string;
  Role : string;
  CACertPath : string;
  TimeToLive : time.Duration;
  URISubjectAlternativeNames : list string;
  OtherSubjectAlternativeNames : list string
}.

(** The zero value of [Vault], before any configuration is read. *)
Definition Vault_zero : Vault :=
  mkVault url.zero EmptyString AuthMethod_zero
          (mkRenewingToken EmptyString 0 0) EmptyString
          EmptyString EmptyString EmptyString 0 [] [].

(** The [default] struct tags of the duration fields. *)
Definition RenewBefore_default : string := "30m".
Definition RenewingTimeToLive_default : string := "24h".
Definition TimeToLive_default : string := "720h".

End envtypes.

(** ** Package [envconfig]: how a tagged field is populated

    [envconfig.Process] looks a field up in the environment under its key
    and then under its alternative key; a field that is not set takes
    the text of its [default] tag, and is left alone when it has none.
    The text of a [time.Duration] field goes through
    [time.ParseDuration]. *)

Module envconfig.

Section Process.
Variable fractionNanos : Z -> Z -> Z -> Z.
(** [os.LookupEnv] *)
Variable lookupEnv : string -> option string.

(** [value, ok := lookupEnv(info.Key)], then [info.Alt] when that fails
    and an alternative key exists; [info.Alt] is the [envconfig] tag of
    the field and is empty for a field without one. *)
Definition lookup (key alt : string) : option string :=
  match lookupEnv key with
  | Some value => Some value
  | None => if String.eqb alt EmptyString then None else lookupEnv alt
  end.

(** The text a field is decoded from; [None] is the [continue] that
    skips the field. *)
Definition fieldText (key alt def : string) : option string :=
  match lookup key alt with
  | Some value => Some value
  | None => if String.eqb def EmptyString then None else Some def
  end.

(** A field of type [time.Duration]: its value after [Process], or the
    failure of [time.ParseDuration]. *)
Definition processDuration (key alt def : string) (current : time.Duration)
  : time.Duration + time.parse_failure :=
  match fieldText key alt def with
  | None => inl current
  | Some text => time.ParseDuration fractionNanos text
  end.

(** The two duration fields of [AuthMethodRenewingToken], each under
    its own pair of keys. *)
Definition processRenewingDurations
  (keyRB altRB keyTTL altTTL : string) (r : envtypes.RenewingToken)
  : envtypes.RenewingToken + time.parse_failure :=
  match processDuration keyRB altRB envtypes.RenewBefore_default
          (envtypes.RenewBefore r) with
  | inr e => inr e
  | inl rb =>
      match processDuration keyTTL altTTL envtypes.RenewingTimeToLive_default
              (envtypes.RenewingTimeToLive r) with
      | inr e => inr e
      | inl life =>
          inl (envtypes.mkRenewingToken (envtypes.Initial r) rb life)
      end
  end.
End Process.

End envconfig.

(** ** Construction of the Vault issuer *)

Module issuer.

Inductive credential : Type :=
| ConstantCredential (secret : string)
| RenewingCredential (initial : string)
                     (renewBefore timeToLive : time.Duration).

Record backend : Type := mkBackend {
  config : envtypes.Vault;
  provider : credential
}.

Inductive ConfigurationError : Type :=
| UnknownAuthMethodError
| MissingField (name : string)
| RenewBeforeNotBelowTimeToLive.

(** Modelled from the spec: the construction of the Vault backend from
    its configuration, which is not among the sources.  In the words of
    the specification it fails fast if the configured auth method is
    Unknown, if a required field (URL, role) is empty, or if
    [RenewBefore >= TimeToLive] for a renewing credential; otherwise it
    yields the backend with its validated configuration and its
    credential provider. *)
Definition NewVault (conf : envtypes.Vault) : backend + ConfigurationError :=
  if url.isZero (envtypes.URL conf) then inr (MissingField "URL")
  else if String.eqb (envtypes.Role conf) EmptyString
       then inr (MissingField "Role")
  else if envtypes.VaultAuthMethod conf =? envtypes.ConstantTokenAuthMethod
       then inl (mkBackend conf
                   (ConstantCredential (envtypes.AuthMethodConstantToken conf)))
  else if envtypes.VaultAuthMethod conf =? envtypes.RenewingTokenAuthMethod
       then
         let r := envtypes.AuthMethodRenewingToken conf in
         if envtypes.RenewingTimeToLive r <=? envtypes.RenewBefore r
         then inr RenewBeforeNotBelowTimeToLive
         else inl (mkBackend conf
                     (RenewingCredential (envtypes.Initial r)
                        (envtypes.RenewBefore r)
                        (envtypes.RenewingTimeToLive r)))
  else inr UnknownAuthMethodError.

End issuer.


(** * Properties *)


Definition issuerLabels : list string :=
  ["vault"; "hashicorp"; "cfssl"; "cloudflare";
   "aws"; "amazon"; "acmpca"; "awscmpca"].

Definition authMethodLabels : list string :=
  ["constant"; "token"; "constant_token"; "renewing"; "renewing_token"].

(** The identity stands for [strings.Map(unicode.ToLower, _)] wherever a
    concrete input is made of ASCII bytes and never reaches it. *)
Definition unusedUnicodeLower (s : string) : string := s.

(** ** Vocabulary of the further properties *)

Definition isUpperByte (c : ascii) : bool :=
  ((65 <=? N_of_ascii c) && (N_of_ascii c <=? 90))%N.

Definition isLowerByte (c : ascii) : bool :=
  ((97 <=? N_of_ascii c) && (N_of_ascii c <=? 122))%N.

Definition isLetterByte (c : ascii) : bool := isUpperByte c || isLowerByte c.

(** Two bytes that are equal, or the two cases of one ASCII letter: the
    codes of the two cases differ in the bit of weight 32 only. *)
Definition sameLetter (c1 c2 : ascii) : bool :=
  Ascii.eqb c1 c2
  || (isLetterByte c1 && isLetterByte c2
      && (N.lxor (N_of_ascii c1) (N_of_ascii c2) =? 32)%N).

(** Two strings that are equal up to the case of their ASCII letters. *)
Fixpoint equalFold (a b : string) : bool :=
  match a, b with
  | EmptyString, EmptyString => true
  | String x a', String y b' => sameLetter x y && equalFold a' b'
  | _, _ => false
  end.

Fixpoint allBytes (p : ascii -> bool) (s : string) : bool :=
  match s with
  | EmptyString => true
  | String c rest => p c && allBytes p rest
  end.

(** The values of the two enumerations. *)
Definition isIssuer (i : envtypes.Issuer) : bool :=
  (i =? envtypes.VaultIssuer) || (i =? envtypes.CFSSLIssuer)
  || (i =? envtypes.AWSIssuer).

Definition isAuthMethod (am : envtypes.AuthMethod) : bool :=
  (am =? envtypes.UnknownAuthMethod)
  || (am =? envtypes.ConstantTokenAuthMethod)
  || (am =? envtypes.RenewingTokenAuthMethod).

Definition isLetterOrUnderscore (c : ascii) : bool :=
  isLetterByte c || Ascii.eqb c "_"%char.

(** The bytes a JSON string can hold as they are: no double quote, no
    backslash and no control byte. *)
Definition verbatimByte (c : ascii) : bool :=
  negb (Ascii.eqb c "034"%char) && negb (Ascii.eqb c "092"%char)
  && (32 <=? N_of_ascii c)%N.

(** The bytes [Duration.String] writes: digits, the decimal point, the
    sign, the unit letters and the two bytes of the micro sign. *)
Definition durationByte (c : ascii) : bool :=
  time.isDigit c
  || existsb (Ascii.eqb c)
       ["."%char; "-"%char; "h"%char; "m"%char; "s"%char; "n"%char;
        "194"%char; "181"%char].

Definition mandatoryKeys : list string :=
  ["csr"; "common_name"; "exclude_cn_from_sans"; "format"].

Definition startsWithDigit (s : string) : bool :=
  match s with
  | String c _ => time.isDigit c
  | EmptyString => false
  end.

(** The text of a whole number of seconds: the seconds, preceded by the
    minutes once there is a minute, and by the hours once there is an
    hour. *)
Definition wholeSecondsText (seconds : Z) : string :=
  let buf := time.fmtInt "s" (seconds mod 60) in
  let minutes := seconds / 60 in
  if 0 <? minutes then
    let buf := time.fmtInt (String "m"%char buf) (minutes mod 60) in
    let hours := minutes / 60 in
    if 0 <? hours then time.fmtInt (String "h"%char buf) hours else buf
  else buf.

Fixpoint countByte (c : ascii) (s : string) : nat :=
  match s with
  | EmptyString => O
  | String x rest => ((if Ascii.eqb x c then 1 else 0) + countByte c rest)%nat
  end.

(** The bytes that go through [json.Marshal] unchanged inside a string
    returned by a [MarshalJSON] method: nothing JSON has to escape,
    none of the three bytes the HTML escaping rewrites, and not the
    byte 226 that opens U+2028 and U+2029. *)
Definition plainByte (c : ascii) : bool :=
  verbatimByte c
  && negb (existsb (Ascii.eqb c) ["<"%char; ">"%char; "&"%char; "226"%char]).

(** ** Switch cases *)

Lemma case_of_In (tag : string) (labels : list string) :
  case_of tag labels = true <-> In tag labels.
Proof.
  unfold case_of. rewrite existsb_exists. split.
  - intros [label [Hin Heq]]. apply String.eqb_eq in Heq. now subst.
  - intros Hin. exists tag. split; [assumption | apply String.eqb_refl].
Qed.

Lemma case_of_not_In (tag : string) (labels : list string) :
  case_of tag labels = false <-> ~ In tag labels.
Proof.
  rewrite <- case_of_In. destruct (case_of tag labels); split; intro H;
    try reflexivity; try discriminate; congruence.
Qed.

Lemma ToLower_ascii (m : string -> string) (s : string) :
  strings.isASCII s = true -> strings.ToLower m s = strings.lowerBytes s.
Proof. unfold strings.ToLower. now intros ->. Qed.

(** ** Letter case *)

Lemma lowerByte_idempotent (c : ascii) :
  strings.lowerByte (strings.lowerByte c) = strings.lowerByte c.
Proof. destruct c as [[] [] [] [] [] [] [] []]; reflexivity. Qed.

Lemma lowerByte_stays_ascii (c : ascii) :
  strings.isASCIIByte (strings.lowerByte c) = strings.isASCIIByte c.
Proof. destruct c as [[] [] [] [] [] [] [] []]; reflexivity. Qed.

Lemma lowerBytes_idempotent (s : string) :
  strings.lowerBytes (strings.lowerBytes s) = strings.lowerBytes s.
Proof.
  induction s as [| c s IH]; simpl;
    [reflexivity | now rewrite lowerByte_idempotent, IH].
Qed.

Lemma lowerBytes_stays_ascii (s : string) :
  strings.isASCII (strings.lowerBytes s) = strings.isASCII s.
Proof.
  induction s as [| c s IH]; simpl;
    [reflexivity | now rewrite lowerByte_stays_ascii, IH].
Qed.

(** On ASCII input the tag of the switches does not depend on the case
    of the letters. *)
Lemma ToLower_ignores_ascii_case (m : string -> string) (s : string) :
  strings.isASCII s = true ->
  strings.ToLower m (strings.lowerBytes s) = strings.ToLower m s.
Proof.
  intros Hascii. unfold strings.ToLower.
  now rewrite lowerBytes_stays_ascii, Hascii, lowerBytes_idempotent.
Qed.

Lemma Issuer_UnmarshalText_ignores_ascii_case
  (m : string -> string) (i : envtypes.Issuer) (in_ : string) :
  strings.isASCII in_ = true ->
  envtypes.Issuer_UnmarshalText m i (strings.lowerBytes in_)
  = envtypes.Issuer_UnmarshalText m i in_.
Proof.
  intros Hascii. unfold envtypes.Issuer_UnmarshalText.
  now rewrite ToLower_ignores_ascii_case.
Qed.

Lemma AuthMethod_UnmarshalText_ignores_ascii_case
  (m : string -> string) (am : envtypes.AuthMethod) (in_ : string) :
  strings.isASCII in_ = true ->
  envtypes.AuthMethod_UnmarshalText m am (strings.lowerBytes in_)
  = envtypes.AuthMethod_UnmarshalText m am in_.
Proof.
  intros Hascii. unfold envtypes.AuthMethod_UnmarshalText.
  now rewrite ToLower_ignores_ascii_case.
Qed.

Example Issuer_UnmarshalText_HashiCorp :
  envtypes.Issuer_UnmarshalText unusedUnicodeLower envtypes.AWSIssuer
    "HashiCorp"
  = (envtypes.VaultIssuer, nil_error).
Proof. reflexivity. Qed.

Example Issuer_UnmarshalText_CLOUDFLARE :
  envtypes.Issuer_UnmarshalText unusedUnicodeLower envtypes.VaultIssuer
    "CLOUDFLARE"
  = (envtypes.CFSSLIssuer, nil_error).
Proof. reflexivity. Qed.

Example Issuer_UnmarshalText_AwsCmPca :
  envtypes.Issuer_UnmarshalText unusedUnicodeLower envtypes.VaultIssuer
    "AwsCmPca"
  = (envtypes.AWSIssuer, nil_error).
Proof. reflexivity. Qed.

Example AuthMethod_UnmarshalText_Renewing_Token :
  envtypes.AuthMethod_UnmarshalText unusedUnicodeLower
    envtypes.UnknownAuthMethod "Renewing_Token"
  = (envtypes.RenewingTokenAuthMethod, nil_error).
Proof. reflexivity. Qed.

Example AuthMethod_UnmarshalText_approle :
  envtypes.AuthMethod_UnmarshalText unusedUnicodeLower
    envtypes.ConstantTokenAuthMethod "approle"
  = (envtypes.UnknownAuthMethod, nil_error).
Proof. reflexivity. Qed.

(** ** [Issuer.UnmarshalText] *)

Section IssuerParsing.
Variable m : string -> string.

Lemma Issuer_UnmarshalText_cases (i : envtypes.Issuer) (in_ : string) :
  let tag := strings.ToLower m in_ in
  (In tag ["vault"; "hashicorp"] /\
   envtypes.Issuer_UnmarshalText m i in_ = (envtypes.VaultIssuer, nil_error))
  \/ (In tag ["cfssl"; "cloudflare"] /\
      envtypes.Issuer_UnmarshalText m i in_
      = (envtypes.CFSSLIssuer, nil_error))
  \/ (In tag ["aws"; "amazon"; "acmpca"; "awscmpca"] /\
      envtypes.Issuer_UnmarshalText m i in_ = (envtypes.AWSIssuer, nil_error))
  \/ (~ In tag issuerLabels /\
      envtypes.Issuer_UnmarshalText m i in_
      = (i, errors.New envtypes.invalid_issuer_message)).
Proof.
  intros tag. unfold envtypes.Issuer_UnmarshalText. fold tag.
  destruct (case_of tag ["vault"; "hashicorp"]) eqn:Hv.
  { left. split; [now apply case_of_In | reflexivity]. }
  destruct (case_of tag ["cfssl"; "cloudflare"]) eqn:Hc.
  { right; left. split; [now apply case_of_In | reflexivity]. }
  destruct (case_of tag ["aws"; "amazon"; "acmpca"; "awscmpca"]) eqn:Ha.
  { right; right; left. split; [now apply case_of_In | reflexivity]. }
  right; right; right. split; [| reflexivity].
  apply case_of_not_In in Hv, Hc, Ha.
  unfold issuerLabels. simpl in *. tauto.
Qed.

End IssuerParsing.




(** C9: on an input that is none of the labels of the switch,
    [Issuer.UnmarshalText] returns its error and the target keeps the
    value it held before the call. *)
Theorem Issuer_UnmarshalText_failure_keeps_target
  (m : string -> string) (i : envtypes.Issuer) (in_ : string) :
  ~ In (strings.ToLower m in_) issuerLabels ->
  envtypes.Issuer_UnmarshalText m i in_
  = (i, errors.New envtypes.invalid_issuer_message).
Proof.
  intros Hnot.
  destruct (Issuer_UnmarshalText_cases m i in_)
    as [[Hin _] | [[Hin _] | [[Hin _] | [_ Hr]]]];
    try exact Hr; exfalso; apply Hnot; unfold issuerLabels;
    simpl in *; tauto.
Qed.

Lemma Issuer_UnmarshalText_failure_keeps_target_witness :
  ~ In (strings.ToLower unusedUnicodeLower "Let's Encrypt") issuerLabels
  /\ envtypes.Issuer_UnmarshalText unusedUnicodeLower envtypes.AWSIssuer
       "Let's Encrypt"
     = (envtypes.AWSIssuer, errors.New envtypes.invalid_issuer_message).
Proof.
  assert (H : ~ In (strings.ToLower unusedUnicodeLower "Let's Encrypt")
                issuerLabels)
    by (vm_compute; intuition discriminate).
  split; [exact H |].
  exact (Issuer_UnmarshalText_failure_keeps_target
           unusedUnicodeLower envtypes.AWSIssuer "Let's Encrypt" H).
Defined.

(** ** [AuthMethod.UnmarshalText] *)

(** The outcome of [AuthMethod.UnmarshalText] by the lower-cased
    input. *)
Lemma AuthMethod_UnmarshalText_by_tag
  (m : string -> string) (am : envtypes.AuthMethod) (in_ : string) :
  let tag := strings.ToLower m in_ in
  let result := envtypes.AuthMethod_UnmarshalText m am in_ in
  snd result = nil_error
  /\ (In tag ["constant"; "token"; "constant_token"] <->
      fst result = envtypes.ConstantTokenAuthMethod)
  /\ (In tag ["renewing"; "renewing_token"] <->
      fst result = envtypes.RenewingTokenAuthMethod)
  /\ (~ In tag authMethodLabels <->
      fst result = envtypes.UnknownAuthMethod).
Proof.
  intros tag result. subst result.
  unfold envtypes.AuthMethod_UnmarshalText. fold tag.
  assert (Hdisj : In tag ["constant"; "token"; "constant_token"] ->
                  ~ In tag ["renewing"; "renewing_token"])
    by (simpl; intros H1 H2; intuition congruence).
  assert (Hall : In tag authMethodLabels <->
                 In tag ["constant"; "token"; "constant_token"]
                 \/ In tag ["renewing"; "renewing_token"])
    by (unfold authMethodLabels; simpl; tauto).
  destruct (case_of tag ["constant"; "token"; "constant_token"]) eqn:Hc.
  - apply case_of_In in Hc.
    repeat split; try reflexivity; try tauto;
      intros H; exfalso; first [ discriminate H | tauto ].
  - apply case_of_not_In in Hc.
    destruct (case_of tag ["renewing"; "renewing_token"]) eqn:Hr.
    + apply case_of_In in Hr.
      repeat split; try reflexivity; try tauto;
        intros H; exfalso; first [ discriminate H | tauto ].
    + apply case_of_not_In in Hr.
      repeat split; try reflexivity; try tauto;
        intros H; exfalso; first [ discriminate H | tauto ].
Qed.

(** ** Zero values *)

(** C10: the zero value of [Issuer] is [VaultIssuer], the value that
    parsing vault stores, and the zero value of [AuthMethod] is
    [UnknownAuthMethod], the value that parsing an unrecognized text
    stores; a configuration that was never populated carries the
    latter, and the zero value is none of the other constants of either
    enumeration. *)
Theorem zero_values_of_the_enumerations :
  envtypes.Issuer_zero = envtypes.VaultIssuer
  /\ envtypes.AuthMethod_zero = envtypes.UnknownAuthMethod
  /\ (forall (m : string -> string) (i : envtypes.Issuer),
        envtypes.Issuer_UnmarshalText m i "vault"
        = (envtypes.Issuer_zero, nil_error))
  /\ (forall (m : string -> string) (am : envtypes.AuthMethod),
        envtypes.AuthMethod_UnmarshalText m am "no such method"
        = (envtypes.AuthMethod_zero, nil_error))
  /\ envtypes.VaultAuthMethod envtypes.Vault_zero
     = envtypes.UnknownAuthMethod
  /\ envtypes.Issuer_zero <> envtypes.CFSSLIssuer
  /\ envtypes.Issuer_zero <> envtypes.AWSIssuer
  /\ envtypes.AuthMethod_zero <> envtypes.ConstantTokenAuthMethod
  /\ envtypes.AuthMethod_zero <> envtypes.RenewingTokenAuthMethod.
Proof.
  repeat split; try reflexivity; intros H; cbv in H; discriminate H.
Qed.

(** ** [ConstantToken.SetToken] *)

(** C6: [ConstantToken.SetToken] returns nil and leaves a client whose
    token is the constant, byte for byte, and whose remaining state is
    the one it had. *)
Theorem ConstantToken_SetToken_sets_the_token
  (Rest : Type) (c : vault.ConstantToken) (cli : api.Client Rest) :
  snd (vault.ConstantToken_SetToken c cli) = nil_error
  /\ api.token (fst (vault.ConstantToken_SetToken c cli)) = c
  /\ api.rest (fst (vault.ConstantToken_SetToken c cli)) = api.rest cli.
Proof. repeat split. Qed.

(** ** [otherSans.MarshalJSON] *)

(** A field without a comma, followed by a comma, is the first field. *)
Lemma SplitByte_first_field (field rest : string) :
  vault.commaFree field = true ->
  strings.SplitByte (field ++ "," ++ rest) ","%char
  = field :: strings.SplitByte rest ","%char.
Proof.
  induction field as [| c field IH]; intros Hfree.
  - reflexivity.
  - simpl in Hfree. apply andb_true_iff in Hfree as [Hc Hfree].
    apply negb_true_iff in Hc.
    change (String c field ++ "," ++ rest)%string
      with (String c (field ++ "," ++ rest)).
    cbn [strings.SplitByte]. rewrite Hc, (IH Hfree). reflexivity.
Qed.

Lemma SplitByte_single_field (field : string) :
  vault.commaFree field = true ->
  strings.SplitByte field ","%char = [field].
Proof.
  induction field as [| c field IH]; intros Hfree.
  - reflexivity.
  - simpl in Hfree. apply andb_true_iff in Hfree as [Hc Hfree].
    apply negb_true_iff in Hc.
    cbn [strings.SplitByte]. rewrite Hc, (IH Hfree). reflexivity.
Qed.

(** Splitting undoes joining, for at least one element and no comma
    inside the elements. *)
Lemma SplitByte_Join (o : list string) :
  o <> [] ->
  forallb vault.commaFree o = true ->
  strings.SplitByte (strings.Join o ",") ","%char = o.
Proof.
  induction o as [| e rest IH]; intros Hne Hfree; [contradiction |].
  simpl in Hfree. apply andb_true_iff in Hfree as [He Hrest].
  destruct rest as [| e' rest'].
  - simpl. now apply SplitByte_single_field.
  - change (strings.Join (e :: e' :: rest') ",")
      with (e ++ "," ++ strings.Join (e' :: rest') ",")%string.
    rewrite (SplitByte_first_field _ _ He).
    f_equal. apply IH; [discriminate | exact Hrest].
Qed.

Lemma dropClosingQuote_append (body : string) :
  vault.dropClosingQuote (body ++ dq) = Some body.
Proof.
  induction body as [| c body IH].
  - reflexivity.
  - change (String c body ++ dq)%string with (String c (body ++ dq)).
    cbn [vault.dropClosingQuote]. rewrite IH.
    destruct body; reflexivity.
Qed.

Lemma unquote_quoted (body : string) :
  vault.unquote (dq ++ body ++ dq) = Some body.
Proof. apply dropClosingQuote_append. Qed.

(** C3, as stated, fails on the empty list, whose elements are
    trivially non-empty and comma-free: it is encoded as two quotes
    around nothing, and splitting nothing on commas gives one empty
    field, not the empty list. *)
Lemma otherSans_empty_list_is_not_recovered :
  forallb vault.nonEmpty [] = true
  /\ forallb vault.commaFree [] = true
  /\ vault.otherSans_MarshalJSON [] = (dq ++ EmptyString ++ dq, nil_error)
  /\ vault.splitOnCommas EmptyString = [EmptyString]
  /\ vault.otherSans_decode (fst (vault.otherSans_MarshalJSON []))
     <> Some [].
Proof. repeat split. discriminate. Qed.

(** C3, amended: [otherSans.MarshalJSON] returns, without error, the
    elements joined by commas in the order given, between two double
    quotes; for every list of at least one element, whose elements are
    non-empty and hold no comma, splitting the joined string on commas
    gives the list back, in the same order. *)
Theorem otherSans_MarshalJSON_round_trip (o : vault.otherSans) :
  o <> [] ->
  forallb vault.nonEmpty o = true ->
  forallb vault.commaFree o = true ->
  vault.otherSans_MarshalJSON o
  = (dq ++ strings.Join o "," ++ dq, nil_error)
  /\ vault.splitOnCommas (strings.Join o ",") = o
  /\ vault.otherSans_decode (fst (vault.otherSans_MarshalJSON o)) = Some o.
Proof.
  intros Hne _ Hfree.
  assert (Hsplit : vault.splitOnCommas (strings.Join o ",") = o)
    by (apply SplitByte_Join; assumption).
  repeat split; [exact Hsplit |].
  unfold vault.otherSans_decode.
  change (fst (vault.otherSans_MarshalJSON o))
    with (dq ++ strings.Join o "," ++ dq)%string.
  rewrite unquote_quoted. simpl. now rewrite Hsplit.
Qed.

Lemma otherSans_MarshalJSON_round_trip_witness :
  vault.otherSans_MarshalJSON ["a"; "b"] = (dq ++ "a,b" ++ dq, nil_error)
  /\ vault.splitOnCommas "a,b" = ["a"; "b"]
  /\ vault.otherSans_decode (fst (vault.otherSans_MarshalJSON ["a"; "b"]))
     = Some ["a"; "b"].
Proof.
  apply (otherSans_MarshalJSON_round_trip ["a"; "b"]);
    [discriminate | reflexivity | reflexivity].
Defined.

(** ** The members of an encoded [csrOpts] *)

Lemma isEmptySlice_nil {A : Type} (l : list A) :
  json.isEmptySlice l = true <-> l = [].
Proof.
  unfold json.isEmptySlice. destruct l; simpl; split; intros H;
    try reflexivity; discriminate H.
Qed.

(** C4, as stated, fails: the encoder has no value it keeps for the
    empty sequence.  [otherSans.MarshalJSON] of the empty (or nil) list
    is the empty JSON string, two double quotes, and not JSON's null. *)
Lemma otherSans_MarshalJSON_of_empty_is_the_empty_string :
  vault.otherSans_MarshalJSON [] = (dq ++ dq, nil_error)
  /\ fst (vault.otherSans_MarshalJSON []) <> "null".
Proof. split; [reflexivity | discriminate]. Qed.

(** ** [time.Duration.String] and [ttl.MarshalJSON] *)

(** The digit loop stops on its own before the fuel is spent: more fuel
    than digits changes nothing. *)
Lemma fmtInt_loop_fuel (fuel extra : nat) (buf : string) (v : Z) :
  0 <= v < 10 ^ Z.of_nat fuel ->
  time.fmtInt_loop (fuel + extra) buf v = time.fmtInt_loop fuel buf v.
Proof.
  revert buf v. induction fuel as [| fuel IH]; intros buf v Hv.
  - assert (v = 0) by (simpl in Hv; lia). subst v.
    destruct extra; reflexivity.
  - cbn [Nat.add time.fmtInt_loop]. destruct (0 <? v) eqn:Hpos;
      [| reflexivity].
    apply IH. rewrite Nat2Z.inj_succ, Z.pow_succ_r in Hv by lia.
    split; [apply Z.div_pos; lia |].
    apply Z.div_lt_upper_bound; lia.
Qed.

Lemma uint64_fits_the_digit_buffer (x : Z) :
  0 <= time.uint64 x < 10 ^ Z.of_nat time.uint64_digits.
Proof.
  unfold time.uint64, time.uint64_digits.
  pose proof (Z.mod_pos_bound x (2 ^ 64) ltac:(lia)) as H.
  change (10 ^ Z.of_nat 20) with 100000000000000000000.
  change (2 ^ 64) with 18446744073709551616 in *. lia.
Qed.

(** A value that is a multiple of [10^prec] has no fraction to print. *)
Lemma fmtFrac_loop_no_fraction (prec : nat) (buf : string) (k : Z) :
  time.fmtFrac_loop prec buf (k * 10 ^ Z.of_nat prec) false
  = (buf, k, false).
Proof.
  revert k. induction prec as [| prec IH]; intros k.
  - simpl. now rewrite Z.mul_1_r.
  - cbn [time.fmtFrac_loop].
    rewrite Nat2Z.inj_succ, Z.pow_succ_r by lia.
    replace (k * (10 * 10 ^ Z.of_nat prec))
      with ((k * 10 ^ Z.of_nat prec) * 10) by lia.
    rewrite Z.mod_mul, Z.div_mul by lia. simpl. apply IH.
Qed.

(** A whole number of hours prints as that number followed by
    [h0m0s]. *)
Lemma Duration_String_whole_hours (h : Z) :
  1 <= h <= 2562047 ->
  time.Duration_String (h * time.Hour) = time.fmtInt "h0m0s" h.
Proof.
  intros Hh. unfold time.Duration_String.
  assert (Hrange : 0 < h * time.Hour < 2 ^ 63)
    by (change time.Hour with 3600000000000;
        change (2 ^ 63) with 9223372036854775808; lia).
  assert (Hu : time.uint64 (h * time.Hour) = h * time.Hour).
  { unfold time.uint64. apply Z.mod_small.
    change (2 ^ 64) with (2 * 2 ^ 63). lia. }
  replace (h * time.Hour <? 0) with false by (symmetry; apply Z.ltb_ge; lia).
  cbv zeta. rewrite Hu.
  replace (h * time.Hour =? 0) with false by (symmetry; apply Z.eqb_neq; lia).
  replace (h * time.Hour <? time.uint64 time.Second) with false
    by (symmetry; apply Z.ltb_ge;
        change (time.uint64 time.Second) with 1000000000;
        change time.Hour with 3600000000000; lia).
  unfold time.fmtFrac.
  replace (h * time.Hour) with ((h * 3600) * 10 ^ Z.of_nat 9)
    by (change time.Hour with 3600000000000;
        change (10 ^ Z.of_nat 9) with 1000000000; lia).
  rewrite fmtFrac_loop_no_fraction.
  replace (h * 3600) with ((h * 60) * 60) by lia.
  rewrite Z.mod_mul, Z.div_mul by lia.
  replace (0 <? h * 60) with true by (symmetry; apply Z.ltb_lt; lia).
  rewrite Z.mod_mul, Z.div_mul by lia.
  replace (0 <? h) with true by (symmetry; apply Z.ltb_lt; lia).
  reflexivity.
Qed.

Example Duration_String_fraction_of_a_second :
  time.Duration_String (1500 * time.Microsecond) = "1.5ms".
Proof. reflexivity. Qed.

Example Duration_String_mixed :
  time.Duration_String (90 * time.Minute + 500 * time.Millisecond)
  = "1h30m0.5s".
Proof. reflexivity. Qed.

Example Duration_String_negative :
  time.Duration_String (- (30 * time.Minute)) = "-30m0s".
Proof. reflexivity. Qed.

Example Duration_String_smallest :
  time.Duration_String (- 2 ^ 63) = "-2562047h47m16.854775808s".
Proof. reflexivity. Qed.

(** C5: [ttl.MarshalJSON] returns no error and the text of
    [Duration.String] between two double quotes; a time to live of 24
    hours gives 24h0m0s and one of 720 hours gives 720h0m0s, each
    between the quotes. *)
Theorem ttl_MarshalJSON_quotes_the_duration_string :
  (forall t : vault.ttl,
     vault.ttl_MarshalJSON t = (dq ++ time.Duration_String t ++ dq, nil_error))
  /\ vault.ttl_MarshalJSON (24 * time.Hour)
     = (dq ++ "24h0m0s" ++ dq, nil_error)
  /\ vault.ttl_MarshalJSON (720 * time.Hour)
     = (dq ++ "720h0m0s" ++ dq, nil_error).
Proof.
  split; [reflexivity |].
  unfold vault.ttl_MarshalJSON.
  rewrite !Duration_String_whole_hours by lia.
  split; reflexivity.
Qed.

(** ** [time.ParseDuration]: the loop ends before its fuel *)

Lemma leadingInt_from_length (s : string) :
  forall (x v : Z) (s1 : string),
    time.leadingInt_from x s = Some (v, s1) ->
    (String.length s1 <= String.length s)%nat.
Proof.
  induction s as [| c s IH]; intros x v s1 H; cbn [time.leadingInt_from] in H.
  - injection H as _ <-. apply Nat.le_refl.
  - destruct (negb (time.isDigit c)).
    + injection H as _ <-. apply Nat.le_refl.
    + destruct (2 ^ 63 / 10 <? x); [discriminate H |].
      destruct (2 ^ 63 <? time.uint64 (x * 10 + time.byteZ c - 48));
        [discriminate H |].
      apply IH in H. simpl. lia.
Qed.

Lemma leadingFraction_from_length (s : string) :
  forall (x scale : Z) (overflow : bool) (f scale' : Z) (s2 : string),
    time.leadingFraction_from x scale overflow s = (f, scale', s2) ->
    (String.length s2 <= String.length s)%nat.
Proof.
  induction s as [| c s IH]; intros x scale overflow f scale' s2 H;
    cbn [time.leadingFraction_from] in H.
  - injection H as _ _ <-. apply Nat.le_refl.
  - destruct (negb (time.isDigit c)).
    + injection H as _ _ <-. apply Nat.le_refl.
    + destruct overflow; [apply IH in H; simpl; lia |].
      destruct ((2 ^ 63 - 1) / 10 <? x); [apply IH in H; simpl; lia |].
      destruct (2 ^ 63 <? time.uint64 (x * 10 + time.byteZ c - 48));
        apply IH in H; simpl; lia.
Qed.

Lemma unitSpan_length (s : string) :
  forall u s3 : string,
    time.unitSpan s = (u, s3) ->
    String.length s = (String.length u + String.length s3)%nat.
Proof.
  induction s as [| c s IH]; intros u s3 H; cbn [time.unitSpan] in H.
  - injection H as <- <-. reflexivity.
  - destruct (Ascii.eqb c "."%char || time.isDigit c).
    + injection H as <- <-. reflexivity.
    + destruct (time.unitSpan s) as [u' rest'] eqn:Hspan.
      injection H as <- <-. simpl. f_equal. now apply IH.
Qed.

(** Any fuel that covers the length of the input gives the same
    result: the branch that runs out of fuel is never taken. *)
Lemma parseTerms_fuel (fractionNanos : Z -> Z -> Z -> Z) (orig : string) :
  forall (fuel1 fuel2 : nat) (s : string) (d : Z),
    (String.length s <= fuel1)%nat ->
    (String.length s <= fuel2)%nat ->
    time.parseTerms fractionNanos fuel1 orig s d
    = time.parseTerms fractionNanos fuel2 orig s d.
Proof.
  induction fuel1 as [| fuel1 IH]; intros fuel2 s d H1 H2;
    destruct s as [| c0 s']; try (destruct fuel2; reflexivity);
    try (simpl in H1; lia).
  destruct fuel2 as [| fuel2]; [simpl in H2; lia |].
  cbn [time.parseTerms].
  destruct (negb (Ascii.eqb c0 "."%char || time.isDigit c0)); [reflexivity |].
  destruct (time.leadingInt (String c0 s')) as [[v s1] |] eqn:Hint;
    [| reflexivity].
  apply leadingInt_from_length in Hint.
  destruct (time.fraction s1) as [[[f scale] s2] post] eqn:Hblk.
  assert (Hs2 : (String.length s2 <= String.length s1)%nat).
  { unfold time.fraction in Hblk. destruct s1 as [| c1 s1'].
    - injection Hblk as _ _ <- _. apply Nat.le_refl.
    - destruct (Ascii.eqb_spec c1 "."%char) as [-> | Hc1].
      + destruct (time.leadingFraction s1') as [[f' scale'] s2'] eqn:Hfrac.
        injection Hblk as _ _ <- _.
        apply leadingFraction_from_length in Hfrac. simpl. lia.
      + assert (Hsame : (f, scale, s2, post) = (0, 1, String c1 s1', false)).
        { rewrite <- Hblk.
          destruct c1 as [[] [] [] [] [] [] [] []]; try reflexivity.
          now contradiction Hc1. }
        injection Hsame as _ _ -> _. apply Nat.le_refl. }
  destruct (negb (negb (String.length (String c0 s') =? String.length s1)%nat)
            && negb post); [reflexivity |].
  destruct (time.unitSpan s2) as [u s3] eqn:Hspan.
  apply unitSpan_length in Hspan.
  destruct (String.eqb_spec u EmptyString) as [-> | Hu]; [reflexivity |].
  destruct (time.unitMap u) as [unit |]; [| reflexivity].
  destruct (2 ^ 63 / unit <? v); [reflexivity |].
  match goal with
  | |- context [(0 <? f) && ?over] => destruct ((0 <? f) && over)
  end; [reflexivity |].
  match goal with
  | |- context [2 ^ 63 <? ?total] => destruct (2 ^ 63 <? total)
  end; [reflexivity |].
  assert (0 < String.length u)%nat
    by (destruct u; [contradiction | simpl; lia]).
  simpl in H1, H2, Hint. apply IH; lia.
Qed.

(** ** Defaults of the renewing-token configuration *)

Lemma ParseDuration_defaults (fractionNanos : Z -> Z -> Z -> Z) :
  time.ParseDuration fractionNanos envtypes.RenewBefore_default
  = inl (30 * time.Minute)
  /\ time.ParseDuration fractionNanos envtypes.RenewingTimeToLive_default
     = inl (24 * time.Hour).
Proof. split; reflexivity. Qed.

(** The default lifetime of certificates, as it is parsed and as it
    goes on the wire. *)
Lemma default_TimeToLive_on_the_wire (fractionNanos : Z -> Z -> Z -> Z) :
  time.ParseDuration fractionNanos envtypes.TimeToLive_default
  = inl (720 * time.Hour)
  /\ fst (vault.ttl_MarshalJSON (720 * time.Hour)) = dq ++ "720h0m0s" ++ dq.
Proof. split; reflexivity. Qed.

(** C8: when neither key of [RenewBefore] and neither key of
    [TimeToLive] is set in the environment, populating the renewing
    token configuration succeeds, with [RenewBefore] at 30 minutes and
    [TimeToLive] at 24 hours, whatever the two fields held before. *)
Theorem renewing_token_defaults
  (fractionNanos : Z -> Z -> Z -> Z) (lookupEnv : string -> option string)
  (keyRB altRB keyTTL altTTL : string) (r : envtypes.RenewingToken) :
  envconfig.lookup lookupEnv keyRB altRB = None ->
  envconfig.lookup lookupEnv keyTTL altTTL = None ->
  envconfig.processRenewingDurations fractionNanos lookupEnv
    keyRB altRB keyTTL altTTL r
  = inl (envtypes.mkRenewingToken (envtypes.Initial r)
           (30 * time.Minute) (24 * time.Hour)).
Proof.
  intros Hrb Httl.
  destruct (ParseDuration_defaults fractionNanos) as [Prb Pttl].
  unfold envconfig.processRenewingDurations, envconfig.processDuration,
    envconfig.fieldText.
  rewrite Hrb, Httl.
  change (String.eqb envtypes.RenewBefore_default EmptyString) with false.
  change (String.eqb envtypes.RenewingTimeToLive_default EmptyString)
    with false.
  cbv iota. rewrite Prb, Pttl. reflexivity.
Qed.

Lemma renewing_token_defaults_witness :
  envconfig.processRenewingDurations (fun _ _ _ => 0) (fun _ => None)
    "VAULT_AUTH_METHOD_RENEWING_TOKEN_RENEW_BEFORE" EmptyString
    "VAULT_AUTH_METHOD_RENEWING_TOKEN_TIME_TO_LIVE" EmptyString
    (envtypes.mkRenewingToken "s.initial" 0 0)
  = inl (envtypes.mkRenewingToken "s.initial"
           (30 * time.Minute) (24 * time.Hour)).
Proof.
  apply (renewing_token_defaults (fun _ _ _ => 0) (fun _ => None));
    reflexivity.
Defined.

(** ** Construction of the Vault backend *)

(** The record itself admits a renewal window that is not below the
    lifetime. *)
Lemma RenewingToken_admits_any_durations :
  exists r : envtypes.RenewingToken,
    envtypes.RenewingTimeToLive r <= envtypes.RenewBefore r.
Proof.
  exists (envtypes.mkRenewingToken EmptyString (24 * time.Hour)
            (30 * time.Minute)).
  simpl. unfold time.Hour, time.Minute, time.Second, time.Millisecond,
    time.Microsecond, time.Nanosecond. lia.
Qed.

(** C7: for a configuration that selects the renewing token, building
    the backend fails with a configuration error when
    [RenewBefore >= TimeToLive] (the error names that cause once the
    URL and the role are present), and every backend that is built has
    [RenewBefore < TimeToLive]. *)
Theorem NewVault_enforces_renewal_before_expiry (conf : envtypes.Vault) :
  envtypes.VaultAuthMethod conf = envtypes.RenewingTokenAuthMethod ->
  let r := envtypes.AuthMethodRenewingToken conf in
  (envtypes.RenewBefore r >= envtypes.RenewingTimeToLive r ->
   (exists e : issuer.ConfigurationError, issuer.NewVault conf = inr e)
   /\ (url.isZero (envtypes.URL conf) = false ->
       envtypes.Role conf <> EmptyString ->
       issuer.NewVault conf = inr issuer.RenewBeforeNotBelowTimeToLive))
  /\ (forall b : issuer.backend,
        issuer.NewVault conf = inl b ->
        envtypes.RenewBefore r < envtypes.RenewingTimeToLive r
        /\ issuer.provider b
           = issuer.RenewingCredential (envtypes.Initial r)
               (envtypes.RenewBefore r) (envtypes.RenewingTimeToLive r)).
Proof.
  intros Hmethod r. unfold issuer.NewVault. fold r. rewrite Hmethod.
  change (envtypes.RenewingTokenAuthMethod
          =? envtypes.ConstantTokenAuthMethod) with false.
  change (envtypes.RenewingTokenAuthMethod
          =? envtypes.RenewingTokenAuthMethod) with true.
  cbv iota.
  destruct (url.isZero (envtypes.URL conf)) eqn:Hurl.
  { split.
    - intros _. split; [eexists; reflexivity | discriminate].
    - intros b H; discriminate H. }
  destruct (String.eqb_spec (envtypes.Role conf) EmptyString) as [Hrole | Hrole].
  { split.
    - intros _. split; [eexists; reflexivity | intros _ Hne; contradiction].
    - intros b H; discriminate H. }
  destruct (Z.leb_spec (envtypes.RenewingTimeToLive r) (envtypes.RenewBefore r))
    as [Hle | Hlt].
  - split.
    + intros _. split; [eexists; reflexivity | reflexivity].
    + intros b H; discriminate H.
  - split.
    + intros Hge. exfalso. lia.
    + intros b H. injection H as <-. split; [lia | reflexivity].
Qed.

Lemma NewVault_enforces_renewal_before_expiry_witness :
  issuer.NewVault
    (envtypes.mkVault
       (url.mkURL "https" EmptyString "vault.example.com:8200" EmptyString
          EmptyString EmptyString)
       EmptyString envtypes.RenewingTokenAuthMethod
       (envtypes.mkRenewingToken "s.initial" (24 * time.Hour)
          (30 * time.Minute))
       EmptyString "pki" "proxy" EmptyString (720 * time.Hour) [] [])
  = inr issuer.RenewBeforeNotBelowTimeToLive.
Proof.
  refine (proj2 (proj1 (NewVault_enforces_renewal_before_expiry _ _) _) _ _);
    [reflexivity | vm_compute; discriminate | reflexivity | discriminate].
Defined.


(** * Further properties *)

(** ** Parsing: letter case, foreign bytes, prior values *)

Lemma sameLetter_lowerByte (c1 c2 : ascii) :
  sameLetter c1 c2 = true -> strings.lowerByte c1 = strings.lowerByte c2.
Proof.
  unfold sameLetter. intros H. apply orb_true_iff in H as [H | H].
  - apply Ascii.eqb_eq in H. now subst.
  - apply andb_true_iff in H as [Hletters Hxor].
    apply N.eqb_eq in Hxor.
    assert (Hc2 : c2 = ascii_of_N (N.lxor (N_of_ascii c1) 32)).
    { rewrite <- Hxor, <- N.lxor_assoc, N.lxor_nilpotent, N.lxor_0_l.
      symmetry. apply ascii_N_embedding. }
    subst c2. clear Hxor.
    destruct c1 as [[] [] [] [] [] [] [] []];
      first [ reflexivity | discriminate Hletters ].
Qed.

Lemma sameLetter_stays_ascii (c1 c2 : ascii) :
  sameLetter c1 c2 = true ->
  strings.isASCIIByte c2 = strings.isASCIIByte c1.
Proof.
  intros H. apply sameLetter_lowerByte in H.
  rewrite <- (lowerByte_stays_ascii c1), <- (lowerByte_stays_ascii c2).
  now rewrite H.
Qed.

Lemma equalFold_lowerBytes (a : string) :
  forall b : string,
    equalFold a b = true ->
    strings.lowerBytes a = strings.lowerBytes b
    /\ strings.isASCII b = strings.isASCII a.
Proof.
  induction a as [| x a IH]; intros [| y b] H; simpl in H;
    try discriminate H; [split; reflexivity |].
  apply andb_true_iff in H as [Hxy Hab].
  destruct (IH b Hab) as [Hlow Hascii]. simpl.
  rewrite (sameLetter_lowerByte _ _ Hxy), Hlow,
    (sameLetter_stays_ascii _ _ Hxy), Hascii.
  split; reflexivity.
Qed.

Lemma ToLower_equalFold (m : string -> string) (a b : string) :
  strings.isASCII a = true ->
  equalFold a b = true ->
  strings.ToLower m a = strings.ToLower m b.
Proof.
  intros Hascii Hfold.
  destruct (equalFold_lowerBytes a b Hfold) as [Hlow Hb].
  unfold strings.ToLower. now rewrite Hb, Hascii, Hlow.
Qed.

(** X1: two ASCII inputs that differ only in the case of their letters
    are parsed alike by [Issuer.UnmarshalText]: the same value is
    stored and the same error is returned. *)
Theorem Issuer_UnmarshalText_case_insensitive
  (m : string -> string) (i : envtypes.Issuer) (a b : string) :
  strings.isASCII a = true ->
  equalFold a b = true ->
  envtypes.Issuer_UnmarshalText m i a = envtypes.Issuer_UnmarshalText m i b.
Proof.
  intros Hascii Hfold. unfold envtypes.Issuer_UnmarshalText.
  now rewrite (ToLower_equalFold m a b Hascii Hfold).
Qed.

Lemma Issuer_UnmarshalText_case_insensitive_witness :
  envtypes.Issuer_UnmarshalText unusedUnicodeLower envtypes.VaultIssuer
    "CloudFlare"
  = envtypes.Issuer_UnmarshalText unusedUnicodeLower envtypes.VaultIssuer
      "cLOUDfLARE".
Proof.
  apply Issuer_UnmarshalText_case_insensitive; reflexivity.
Defined.

(** X2: two ASCII inputs that differ only in the case of their letters
    are parsed alike by [AuthMethod.UnmarshalText]. *)
Theorem AuthMethod_UnmarshalText_case_insensitive
  (m : string -> string) (am : envtypes.AuthMethod) (a b : string) :
  strings.isASCII a = true ->
  equalFold a b = true ->
  envtypes.AuthMethod_UnmarshalText m am a
  = envtypes.AuthMethod_UnmarshalText m am b.
Proof.
  intros Hascii Hfold. unfold envtypes.AuthMethod_UnmarshalText.
  now rewrite (ToLower_equalFold m a b Hascii Hfold).
Qed.

Lemma AuthMethod_UnmarshalText_case_insensitive_witness :
  envtypes.AuthMethod_UnmarshalText unusedUnicodeLower
    envtypes.UnknownAuthMethod "Constant_Token"
  = envtypes.AuthMethod_UnmarshalText unusedUnicodeLower
      envtypes.UnknownAuthMethod "CONSTANT_token".
Proof.
  apply AuthMethod_UnmarshalText_case_insensitive; reflexivity.
Defined.

(** Lower-casing turns a letter into a lower-case letter and leaves any
    other byte alone. *)
Lemma lowerByte_letter (c : ascii) :
  isLowerByte (strings.lowerByte c) = isLetterByte c.
Proof. destruct c as [[] [] [] [] [] [] [] []]; reflexivity. Qed.

Lemma lowerByte_underscore (c : ascii) :
  Ascii.eqb (strings.lowerByte c) "_"%char = Ascii.eqb c "_"%char.
Proof. destruct c as [[] [] [] [] [] [] [] []]; reflexivity. Qed.

Lemma lowerBytes_letters (s : string) :
  allBytes isLowerByte (strings.lowerBytes s) = allBytes isLetterByte s.
Proof.
  induction s as [| c s IH]; simpl;
    [reflexivity | now rewrite lowerByte_letter, IH].
Qed.

Lemma lowerBytes_letters_or_underscores (s : string) :
  allBytes (fun c => isLowerByte c || Ascii.eqb c "_"%char)
    (strings.lowerBytes s)
  = allBytes isLetterOrUnderscore s.
Proof.
  induction s as [| c s IH]; simpl; [reflexivity |].
  unfold isLetterOrUnderscore at 1.
  now rewrite lowerByte_letter, lowerByte_underscore, IH.
Qed.

(** X3: [Issuer.UnmarshalText] does not trim or skip anything: an ASCII
    input that holds a byte other than a letter (a space, a line
    break, a digit, a quote) is rejected with the error, and the target
    keeps its value. *)
Theorem Issuer_UnmarshalText_rejects_foreign_bytes
  (m : string -> string) (i : envtypes.Issuer) (in_ : string) :
  strings.isASCII in_ = true ->
  allBytes isLetterByte in_ = false ->
  envtypes.Issuer_UnmarshalText m i in_
  = (i, errors.New envtypes.invalid_issuer_message).
Proof.
  intros Hascii Hforeign.
  destruct (Issuer_UnmarshalText_cases m i in_)
    as [[Hin _] | [[Hin _] | [[Hin _] | [_ Hr]]]];
    try exact Hr; exfalso;
    rewrite (ToLower_ascii m in_ Hascii) in Hin;
    rewrite <- lowerBytes_letters in Hforeign;
    simpl in Hin;
    repeat (destruct Hin as [Hin | Hin];
            [rewrite <- Hin in Hforeign; discriminate Hforeign |]);
    contradiction.
Qed.

Lemma Issuer_UnmarshalText_rejects_foreign_bytes_witness :
  envtypes.Issuer_UnmarshalText unusedUnicodeLower envtypes.CFSSLIssuer
    "vault "
  = (envtypes.CFSSLIssuer, errors.New envtypes.invalid_issuer_message).
Proof.
  apply Issuer_UnmarshalText_rejects_foreign_bytes; reflexivity.
Defined.

(** X4: [AuthMethod.UnmarshalText] does not trim either: an ASCII input
    that holds a byte other than a letter or an underscore stores
    [UnknownAuthMethod], silently. *)
Theorem AuthMethod_UnmarshalText_foreign_bytes_are_unknown
  (m : string -> string) (am : envtypes.AuthMethod) (in_ : string) :
  strings.isASCII in_ = true ->
  allBytes isLetterOrUnderscore in_ = false ->
  envtypes.AuthMethod_UnmarshalText m am in_
  = (envtypes.UnknownAuthMethod, nil_error).
Proof.
  intros Hascii Hforeign.
  rewrite <- lowerBytes_letters_or_underscores in Hforeign.
  unfold envtypes.AuthMethod_UnmarshalText.
  rewrite (ToLower_ascii m in_ Hascii).
  destruct (case_of (strings.lowerBytes in_)
              ["constant"; "token"; "constant_token"]) eqn:Hc.
  { exfalso. apply case_of_In in Hc. simpl in Hc.
    repeat (destruct Hc as [Hc | Hc];
            [rewrite <- Hc in Hforeign; discriminate Hforeign |]).
    contradiction. }
  destruct (case_of (strings.lowerBytes in_) ["renewing"; "renewing_token"])
    eqn:Hr; [| reflexivity].
  exfalso. apply case_of_In in Hr. simpl in Hr.
  repeat (destruct Hr as [Hr | Hr];
          [rewrite <- Hr in Hforeign; discriminate Hforeign |]).
  contradiction.
Qed.

Lemma AuthMethod_UnmarshalText_foreign_bytes_are_unknown_witness :
  envtypes.AuthMethod_UnmarshalText unusedUnicodeLower
    envtypes.RenewingTokenAuthMethod "renewing-token"
  = (envtypes.UnknownAuthMethod, nil_error).
Proof.
  apply AuthMethod_UnmarshalText_foreign_bytes_are_unknown; reflexivity.
Defined.

(** X5: [Issuer.UnmarshalText] keeps the target inside the enumeration:
    a success stores one of the three constants whatever the target
    held, and a failure leaves a target that held one of them as it
    was. *)
Theorem Issuer_UnmarshalText_stays_in_the_enumeration
  (m : string -> string) (i : envtypes.Issuer) (in_ : string) :
  (snd (envtypes.Issuer_UnmarshalText m i in_) = nil_error ->
   isIssuer (fst (envtypes.Issuer_UnmarshalText m i in_)) = true)
  /\ (isIssuer i = true ->
      isIssuer (fst (envtypes.Issuer_UnmarshalText m i in_)) = true).
Proof.
  destruct (Issuer_UnmarshalText_cases m i in_)
    as [[_ Hr] | [[_ Hr] | [[_ Hr] | [_ Hr]]]]; rewrite Hr; simpl;
    split; intros H; try reflexivity; try assumption; discriminate H.
Qed.

(** X6: a recognized input overwrites the target: the outcome of a
    successful [Issuer.UnmarshalText] is the same from every prior
    value, so that of several calls in a row the last successful one
    decides. *)
Theorem Issuer_UnmarshalText_success_forgets_the_target
  (m : string -> string) (i j : envtypes.Issuer) (in_ : string) :
  snd (envtypes.Issuer_UnmarshalText m i in_) = nil_error ->
  envtypes.Issuer_UnmarshalText m j in_
  = envtypes.Issuer_UnmarshalText m i in_.
Proof.
  unfold envtypes.Issuer_UnmarshalText.
  destruct (case_of _ ["vault"; "hashicorp"]); [reflexivity |].
  destruct (case_of _ ["cfssl"; "cloudflare"]); [reflexivity |].
  destruct (case_of _ ["aws"; "amazon"; "acmpca"; "awscmpca"]);
    [reflexivity |].
  intros H; discriminate H.
Qed.

Lemma Issuer_UnmarshalText_success_forgets_the_target_witness :
  envtypes.Issuer_UnmarshalText unusedUnicodeLower envtypes.AWSIssuer "cfssl"
  = envtypes.Issuer_UnmarshalText unusedUnicodeLower 41 "cfssl".
Proof.
  apply Issuer_UnmarshalText_success_forgets_the_target; reflexivity.
Defined.

(** ** [otherSans.MarshalJSON]: what the joined string can and cannot tell *)

Lemma string_append_assoc (a b c : string) :
  ((a ++ b) ++ c)%string = (a ++ (b ++ c))%string.
Proof. induction a as [| x a IH]; simpl; [reflexivity | now rewrite IH]. Qed.

Lemma Join_cons (e : string) (rest : list string) (sep : string) :
  rest <> [] ->
  strings.Join (e :: rest) sep = (e ++ sep ++ strings.Join rest sep)%string.
Proof. destruct rest; [contradiction | reflexivity]. Qed.

Lemma Join_inner_separator (pre post : list string) (a b : string) :
  strings.Join (pre ++ (a ++ "," ++ b)%string :: post) ","
  = strings.Join (pre ++ a :: b :: post) ",".
Proof.
  induction pre as [| x pre IH].
  - cbn [app]. rewrite (Join_cons a (b :: post)) by discriminate.
    destruct post as [| p post].
    + cbn [strings.Join]. reflexivity.
    + rewrite (Join_cons _ (p :: post)), (Join_cons b (p :: post))
        by discriminate.
      now rewrite !string_append_assoc.
  - cbn [app]. rewrite !Join_cons by (destruct pre; discriminate).
    now rewrite IH.
Qed.

Lemma quoted_injective (a b : string) :
  (dq ++ a ++ dq)%string = (dq ++ b ++ dq)%string -> a = b.
Proof.
  intros H. apply (f_equal vault.unquote) in H.
  rewrite !unquote_quoted in H. now injection H.
Qed.

(** X7: on lists of at least one element whose elements hold no comma,
    [otherSans.MarshalJSON] is injective: two different SAN lists never
    share a wire form. *)
Theorem otherSans_MarshalJSON_injective (o1 o2 : vault.otherSans) :
  o1 <> [] -> o2 <> [] ->
  forallb vault.commaFree o1 = true ->
  forallb vault.commaFree o2 = true ->
  vault.otherSans_MarshalJSON o1 = vault.otherSans_MarshalJSON o2 ->
  o1 = o2.
Proof.
  intros Hn1 Hn2 Hf1 Hf2 Heq.
  assert (Hwire : (dq ++ strings.Join o1 "," ++ dq)%string
                  = (dq ++ strings.Join o2 "," ++ dq)%string)
    by exact (f_equal fst Heq).
  apply quoted_injective in Hwire. rename Hwire into Hjoin.
  rewrite <- (SplitByte_Join o1 Hn1 Hf1), <- (SplitByte_Join o2 Hn2 Hf2).
  now rewrite Hjoin.
Qed.

Lemma otherSans_MarshalJSON_injective_witness :
  ["spiffe://a"; "spiffe://b"] = ["spiffe://a"; "spiffe://b"].
Proof.
  apply otherSans_MarshalJSON_injective;
    first [ discriminate | reflexivity ].
Defined.

(** X8: outside those lists the wire form is ambiguous.  An element
    that holds a comma is encoded exactly like the two elements on
    either side of that comma, wherever it stands in the list; and the
    list of one empty element is encoded like the empty list. *)
Theorem otherSans_MarshalJSON_confuses_inner_commas
  (pre post : list string) (a b : string) :
  vault.otherSans_MarshalJSON (pre ++ (a ++ "," ++ b)%string :: post)%list
  = vault.otherSans_MarshalJSON (pre ++ a :: b :: post)%list
  /\ vault.otherSans_MarshalJSON [EmptyString]
     = vault.otherSans_MarshalJSON [].
Proof.
  split; [| reflexivity].
  unfold vault.otherSans_MarshalJSON. now rewrite Join_inner_separator.
Qed.

Lemma allBytes_append (p : ascii -> bool) (a b : string) :
  allBytes p (a ++ b) = allBytes p a && allBytes p b.
Proof.
  induction a as [| x a IH]; simpl;
    [reflexivity | now rewrite IH, andb_assoc].
Qed.

Lemma allBytes_Join (p : ascii -> bool) (sep : string) (o : list string) :
  allBytes p sep = true ->
  allBytes p (strings.Join o sep) = forallb (allBytes p) o.
Proof.
  intros Hsep. induction o as [| e rest IH]; [reflexivity |].
  destruct rest as [| e' rest'].
  - simpl. now rewrite andb_true_r.
  - rewrite Join_cons by discriminate.
    rewrite !allBytes_append, Hsep, IH. reflexivity.
Qed.

(** X9: [otherSans.MarshalJSON] escapes nothing: the text it puts
    between the two quotes is free of double quotes, backslashes and
    control bytes exactly when every element is. *)
Theorem otherSans_MarshalJSON_escapes_nothing (o : vault.otherSans) :
  option_map (allBytes verbatimByte)
    (vault.unquote (fst (vault.otherSans_MarshalJSON o)))
  = Some (forallb (allBytes verbatimByte) o).
Proof.
  change (fst (vault.otherSans_MarshalJSON o))
    with (dq ++ strings.Join o "," ++ dq)%string.
  rewrite unquote_quoted. simpl option_map.
  now rewrite allBytes_Join.
Qed.

(** ** [ttl.MarshalJSON]: the text of a duration *)

Lemma digitByte_is_a_digit (v : Z) :
  time.isDigit (time.digitByte (v mod 10)) = true.
Proof.
  pose proof (Z.mod_pos_bound v 10 ltac:(lia)) as Hr.
  assert (Hcases : v mod 10 = 0 \/ v mod 10 = 1 \/ v mod 10 = 2
                   \/ v mod 10 = 3 \/ v mod 10 = 4 \/ v mod 10 = 5
                   \/ v mod 10 = 6 \/ v mod 10 = 7 \/ v mod 10 = 8
                   \/ v mod 10 = 9) by lia.
  repeat (destruct Hcases as [-> | Hcases]; [reflexivity |]).
  now rewrite Hcases.
Qed.

Lemma digitByte_durationByte (v : Z) :
  durationByte (time.digitByte (v mod 10)) = true.
Proof. unfold durationByte. now rewrite digitByte_is_a_digit. Qed.

Lemma fmtInt_loop_durationBytes (fuel : nat) :
  forall (buf : string) (v : Z),
    allBytes durationByte buf = true ->
    allBytes durationByte (time.fmtInt_loop fuel buf v) = true.
Proof.
  induction fuel as [| fuel IH]; intros buf v Hbuf; cbn [time.fmtInt_loop];
    [assumption |].
  destruct (0 <? v); [| assumption].
  apply IH. cbn [allBytes]. now rewrite digitByte_durationByte.
Qed.

Lemma fmtInt_durationBytes (buf : string) (v : Z) :
  allBytes durationByte buf = true ->
  allBytes durationByte (time.fmtInt buf v) = true.
Proof.
  intros Hbuf. unfold time.fmtInt. destruct (v =? 0).
  - cbn [allBytes]. now rewrite Hbuf.
  - now apply fmtInt_loop_durationBytes.
Qed.

Lemma fmtFrac_loop_durationBytes (prec : nat) :
  forall (buf : string) (v : Z) (print : bool),
    allBytes durationByte buf = true ->
    allBytes durationByte
      (fst (fst (time.fmtFrac_loop prec buf v print))) = true.
Proof.
  induction prec as [| prec IH]; intros buf v print Hbuf;
    cbn [time.fmtFrac_loop]; [assumption |].
  apply IH. destruct (print || negb (v mod 10 =? 0)); [| assumption].
  cbn [allBytes]. now rewrite digitByte_durationByte.
Qed.

Lemma fmtFrac_durationBytes (buf : string) (v : Z) (prec : nat) :
  allBytes durationByte buf = true ->
  allBytes durationByte (fst (time.fmtFrac buf v prec)) = true.
Proof.
  intros Hbuf. unfold time.fmtFrac.
  pose proof (fmtFrac_loop_durationBytes prec buf v false Hbuf) as H.
  destruct (time.fmtFrac_loop prec buf v false) as [[buf' v'] print].
  simpl in H. destruct print; simpl; [now rewrite H | assumption].
Qed.

Lemma fmtFrac_then_fmtInt_durationBytes (buf : string) (u : Z) (prec : nat) :
  allBytes durationByte buf = true ->
  allBytes durationByte
    (let '(buf0, u0) := time.fmtFrac buf u prec in time.fmtInt buf0 u0)
  = true.
Proof.
  intros Hbuf. pose proof (fmtFrac_durationBytes buf u prec Hbuf) as H.
  destruct (time.fmtFrac buf u prec) as [buf0 u0].
  now apply fmtInt_durationBytes.
Qed.

Lemma Duration_String_durationBytes (d : time.Duration) :
  allBytes durationByte (time.Duration_String d) = true.
Proof.
  unfold time.Duration_String. cbv zeta.
  set (u := if d <? 0 then time.uint64 (- time.uint64 d)
            else time.uint64 d).
  clearbody u.
  destruct (u =? 0); [reflexivity |].
  match goal with
  | |- allBytes _ (if _ then String _ ?body else _) = true =>
      assert (Hbody : allBytes durationByte body = true)
  end.
  { destruct (u <? time.uint64 time.Second).
    - destruct (u <? time.uint64 time.Microsecond);
        [| destruct (u <? time.uint64 time.Millisecond)];
        apply fmtFrac_then_fmtInt_durationBytes; reflexivity.
    - pose proof (fmtFrac_durationBytes "s" u 9 eq_refl) as H.
      destruct (time.fmtFrac "s" u 9) as [buf u0]. simpl in H.
      assert (H0 : allBytes durationByte (time.fmtInt buf (u0 mod 60)) = true)
        by now apply fmtInt_durationBytes.
      destruct (0 <? u0 / 60); [| assumption].
      assert (H1 : allBytes durationByte
                     (time.fmtInt (String "m" (time.fmtInt buf (u0 mod 60)))
                        (u0 / 60 mod 60)) = true)
        by (apply fmtInt_durationBytes; cbn [allBytes]; now rewrite H0).
      destruct (0 <? u0 / 60 / 60); [| assumption].
      apply fmtInt_durationBytes. cbn [allBytes]. now rewrite H1. }
  destruct (d <? 0); [cbn [allBytes]; now rewrite Hbody | exact Hbody].
Qed.

Lemma durationByte_verbatimByte (c : ascii) :
  durationByte c = true -> verbatimByte c = true.
Proof.
  destruct c as [[] [] [] [] [] [] [] []]; intros H;
    first [ reflexivity | discriminate H ].
Qed.

Lemma allBytes_weaken (p q : ascii -> bool) (s : string) :
  (forall c, p c = true -> q c = true) ->
  allBytes p s = true -> allBytes q s = true.
Proof.
  intros Hpq. induction s as [| c s IH]; simpl; [reflexivity |].
  intros H. apply andb_true_iff in H as [Hc Hs].
  now rewrite (Hpq c Hc), (IH Hs).
Qed.

(** X11: whatever the duration, [ttl.MarshalJSON] returns two double
    quotes around a text made of digits, the decimal point, the minus
    sign, the unit letters h, m, s, n and the micro sign; the text holds
    nothing a JSON string has to escape. *)
Theorem ttl_MarshalJSON_needs_no_escaping (t : vault.ttl) :
  exists text : string,
    vault.ttl_MarshalJSON t = (dq ++ text ++ dq, nil_error)
    /\ allBytes durationByte text = true
    /\ allBytes verbatimByte text = true.
Proof.
  exists (time.Duration_String t).
  pose proof (Duration_String_durationBytes t) as H.
  repeat split; [exact H |].
  exact (allBytes_weaken _ _ _ durationByte_verbatimByte H).
Qed.

(** ** [Duration.String] and [time.ParseDuration] on whole seconds *)

Lemma uint64_small (x : Z) : 0 <= x < 2 ^ 64 -> time.uint64 x = x.
Proof. intros H. unfold time.uint64. now apply Z.mod_small. Qed.

Lemma Duration_String_whole_seconds (seconds : Z) :
  1 <= seconds ->
  seconds * time.Second < 2 ^ 63 ->
  time.Duration_String (seconds * time.Second) = wholeSecondsText seconds.
Proof.
  intros Hpos Hmax. unfold time.Duration_String, wholeSecondsText.
  change time.Second with 1000000000 in *.
  change (2 ^ 63) with 9223372036854775808 in Hmax.
  replace (seconds * 1000000000 <? 0) with false
    by (symmetry; apply Z.ltb_ge; lia).
  cbv zeta.
  rewrite (uint64_small (seconds * 1000000000))
    by (change (2 ^ 64) with 18446744073709551616; lia).
  replace (seconds * 1000000000 =? 0) with false
    by (symmetry; apply Z.eqb_neq; lia).
  replace (seconds * 1000000000 <? time.uint64 1000000000) with false
    by (symmetry; apply Z.ltb_ge;
        change (time.uint64 1000000000) with 1000000000; lia).
  unfold time.fmtFrac.
  change 1000000000 with (10 ^ Z.of_nat 9).
  rewrite fmtFrac_loop_no_fraction. reflexivity.
Qed.

Lemma Duration_String_of_negative (d : time.Duration) :
  0 < d < 2 ^ 63 ->
  time.Duration_String (- d) = String "-"%char (time.Duration_String d).
Proof.
  intros Hd. change (2 ^ 63) with 9223372036854775808 in Hd.
  assert (E1 : (- d <? 0) = true) by (apply Z.ltb_lt; lia).
  assert (E2 : (d <? 0) = false) by (apply Z.ltb_ge; lia).
  assert (E4 : time.uint64 d = d)
    by (apply uint64_small; change (2 ^ 64) with 18446744073709551616; lia).
  assert (E3 : time.uint64 (- time.uint64 (- d)) = d).
  { unfold time.uint64. change (2 ^ 64) with 18446744073709551616.
    replace (- d) with (18446744073709551616 - d
                        + (-1) * 18446744073709551616) by lia.
    rewrite Z.mod_add by lia.
    rewrite (Z.mod_small (18446744073709551616 - d)) by lia.
    replace (- (18446744073709551616 - d))
      with (d + (-1) * 18446744073709551616) by lia.
    rewrite Z.mod_add by lia. apply Z.mod_small. lia. }
  assert (E5 : (d =? 0) = false) by (apply Z.eqb_neq; lia).
  unfold time.Duration_String. cbv zeta.
  rewrite E1, E2. cbv iota. rewrite E3, E4, E5. reflexivity.
Qed.

Lemma byteZ_digitByte (v : Z) :
  time.byteZ (time.digitByte (v mod 10)) = v mod 10 + 48.
Proof.
  pose proof (Z.mod_pos_bound v 10 ltac:(lia)) as Hr.
  assert (Hcases : v mod 10 = 0 \/ v mod 10 = 1 \/ v mod 10 = 2
                   \/ v mod 10 = 3 \/ v mod 10 = 4 \/ v mod 10 = 5
                   \/ v mod 10 = 6 \/ v mod 10 = 7 \/ v mod 10 = 8
                   \/ v mod 10 = 9) by lia.
  repeat (destruct Hcases as [-> | Hcases]; [reflexivity |]).
  now rewrite Hcases.
Qed.

(** Reading back the digits that [fmtInt] wrote gives the number. *)
Lemma leadingInt_from_fmtInt_loop (fuel : nat) :
  forall (buf : string) (v : Z),
    0 <= v <= 2 ^ 63 ->
    v < 10 ^ Z.of_nat fuel ->
    time.leadingInt_from 0 (time.fmtInt_loop fuel buf v)
    = time.leadingInt_from v buf.
Proof.
  induction fuel as [| fuel IH]; intros buf v Hv Hfuel.
  - assert (v = 0) by (simpl in Hfuel; lia). now subst v.
  - cbn [time.fmtInt_loop]. destruct (Z.ltb_spec 0 v) as [Hpos | Hzero].
    + rewrite Nat2Z.inj_succ, Z.pow_succ_r in Hfuel by lia.
      change (2 ^ 63) with 9223372036854775808 in *.
      assert (Hq : 0 <= v / 10 <= 9223372036854775808 / 10)
        by (split; [apply Z.div_pos; lia | apply Z.div_le_mono; lia]).
      rewrite IH.
      * cbn [time.leadingInt_from].
        change (2 ^ 63) with 9223372036854775808.
        rewrite digitByte_is_a_digit. cbn [negb].
        replace (9223372036854775808 / 10 <? v / 10) with false
          by (symmetry; apply Z.ltb_ge; lia).
        rewrite byteZ_digitByte.
        replace (v / 10 * 10 + (v mod 10 + 48) - 48) with v
          by (pose proof (Z.div_mod v 10 ltac:(lia)); lia).
        rewrite uint64_small
          by (change (2 ^ 64) with 18446744073709551616; lia).
        replace (9223372036854775808 <? v) with false
          by (symmetry; apply Z.ltb_ge; lia).
        reflexivity.
      * change (9223372036854775808 / 10) with 922337203685477580 in Hq. lia.
      * apply Z.div_lt_upper_bound; lia.
    + assert (v = 0) by lia. now subst v.
Qed.

Lemma leadingInt_fmtInt (c : ascii) (rest : string) (v : Z) :
  time.isDigit c = false ->
  0 <= v <= 2 ^ 63 ->
  time.leadingInt (time.fmtInt (String c rest) v) = Some (v, String c rest).
Proof.
  intros Hc Hv. unfold time.leadingInt, time.fmtInt.
  destruct (Z.eqb_spec v 0) as [-> | Hnz].
  - cbn. now rewrite Hc.
  - rewrite leadingInt_from_fmtInt_loop.
    + cbn [time.leadingInt_from]. now rewrite Hc.
    + assumption.
    + change (2 ^ 63) with 9223372036854775808 in Hv.
      change (10 ^ Z.of_nat time.uint64_digits) with 100000000000000000000.
      lia.
Qed.

Lemma fmtInt_loop_length (fuel : nat) :
  forall (buf : string) (v : Z),
    (String.length buf <= String.length (time.fmtInt_loop fuel buf v))%nat.
Proof.
  induction fuel as [| fuel IH]; intros buf v; cbn [time.fmtInt_loop];
    [apply Nat.le_refl |].
  destruct (0 <? v); [| apply Nat.le_refl].
  specialize (IH (String (time.digitByte (v mod 10)) buf) (v / 10)).
  simpl in IH. lia.
Qed.

Lemma fmtInt_positive (buf : string) (v : Z) :
  0 < v ->
  time.fmtInt buf v
  = time.fmtInt_loop 19 (String (time.digitByte (v mod 10)) buf) (v / 10).
Proof.
  intros Hv. unfold time.fmtInt, time.uint64_digits.
  replace (v =? 0) with false by (symmetry; apply Z.eqb_neq; lia).
  change (time.fmtInt_loop 20 buf v)
    with (if 0 <? v
          then time.fmtInt_loop 19 (String (time.digitByte (v mod 10)) buf)
                 (v / 10)
          else buf).
  now replace (0 <? v) with true by (symmetry; apply Z.ltb_lt; lia).
Qed.

Lemma fmtInt_length (buf : string) (v : Z) :
  0 <= v ->
  (String.length buf < String.length (time.fmtInt buf v))%nat.
Proof.
  intros Hv.
  destruct (Z.eqb_spec v 0) as [-> | Hnz]; [simpl; lia |].
  rewrite fmtInt_positive by lia.
  pose proof (fmtInt_loop_length 19
                (String (time.digitByte (v mod 10)) buf) (v / 10)) as H.
  cbn [String.length] in H. lia.
Qed.

Lemma fmtInt_loop_startsWithDigit (fuel : nat) :
  forall (buf : string) (v : Z),
    startsWithDigit buf = true ->
    startsWithDigit (time.fmtInt_loop fuel buf v) = true.
Proof.
  induction fuel as [| fuel IH]; intros buf v Hbuf; cbn [time.fmtInt_loop];
    [assumption |].
  destruct (0 <? v); [| assumption].
  apply IH. simpl. apply digitByte_is_a_digit.
Qed.

Lemma fmtInt_startsWithDigit (buf : string) (v : Z) :
  0 <= v -> startsWithDigit (time.fmtInt buf v) = true.
Proof.
  intros Hv.
  destruct (Z.eqb_spec v 0) as [-> | Hnz]; [reflexivity |].
  rewrite fmtInt_positive by lia.
  apply fmtInt_loop_startsWithDigit. simpl. apply digitByte_is_a_digit.
Qed.

Lemma fraction_without_point (c : ascii) (rest : string) :
  Ascii.eqb c "."%char = false ->
  time.fraction (String c rest) = (0, 1, String c rest, false).
Proof.
  intros Hc. unfold time.fraction.
  destruct c as [[] [] [] [] [] [] [] []];
    first [ reflexivity | discriminate Hc ].
Qed.

Lemma unitSpan_one_letter (c : ascii) (rest : string) :
  Ascii.eqb c "."%char || time.isDigit c = false ->
  rest = EmptyString \/ startsWithDigit rest = true ->
  time.unitSpan (String c rest) = (String c EmptyString, rest).
Proof.
  intros Hc Hrest. cbn [time.unitSpan]. rewrite Hc.
  destruct rest as [| r rest']; [reflexivity |].
  destruct Hrest as [Hrest | Hrest]; [discriminate Hrest |].
  cbn [time.unitSpan]. simpl in Hrest. rewrite Hrest, orb_true_r.
  reflexivity.
Qed.

(** One turn of the loop of [ParseDuration] on a term written by
    [fmtInt] in front of a one-letter unit. *)
Lemma parseTerms_one_term
  (fractionNanos : Z -> Z -> Z -> Z) (orig : string)
  (c : ascii) (rest : string) (v unit d : Z) :
  Ascii.eqb c "."%char || time.isDigit c = false ->
  time.unitMap (String c EmptyString) = Some unit ->
  rest = EmptyString \/ startsWithDigit rest = true ->
  0 < unit -> 0 <= v -> 0 <= d -> d + v * unit < 2 ^ 63 ->
  time.parseTerms fractionNanos
    (String.length (time.fmtInt (String c rest) v)) orig
    (time.fmtInt (String c rest) v) d
  = time.parseTerms fractionNanos (String.length rest) orig rest
      (d + v * unit).
Proof.
  intros Hc Hunit Hrest Hu Hv Hd Hsum.
  set (s := time.fmtInt (String c rest) v).
  apply orb_false_iff in Hc as Hc'. destruct Hc' as [Hpoint Hdigit].
  change (2 ^ 63) with 9223372036854775808 in *.
  assert (Hvmax : v <= 9223372036854775808 / unit)
    by (apply Z.div_le_lower_bound; nia).
  assert (Hv63 : 0 <= v <= 9223372036854775808) by nia.
  pose proof (fmtInt_length (String c rest) v Hv) as Hlen. fold s in Hlen.
  pose proof (fmtInt_startsWithDigit (String c rest) v Hv) as Hstart.
  fold s in Hstart.
  pose proof (leadingInt_fmtInt c rest v Hdigit Hv63) as Hint. fold s in Hint.
  clearbody s.
  destruct s as [| c0 s']; [discriminate Hstart |].
  cbn [startsWithDigit] in Hstart. cbn [String.length] in *.
  cbn [time.parseTerms].
  rewrite Hstart, orb_true_r. cbn [negb].
  rewrite Hint, (fraction_without_point c rest Hpoint).
  cbn [String.length]. change (2 ^ 63) with 9223372036854775808.
  replace (S (String.length s') =? S (String.length rest))%nat
    with false by (symmetry; apply Nat.eqb_neq; lia).
  cbn [negb andb].
  rewrite (unitSpan_one_letter c rest Hc Hrest). cbn [String.eqb].
  rewrite Hunit.
  replace (9223372036854775808 / unit <? v) with false
    by (symmetry; apply Z.ltb_ge; lia).
  cbn [Z.ltb Z.compare andb].
  rewrite (uint64_small (v * unit))
    by (change (2 ^ 64) with 18446744073709551616; nia).
  rewrite (uint64_small (d + v * unit))
    by (change (2 ^ 64) with 18446744073709551616; nia).
  replace (9223372036854775808 <? d + v * unit) with false
    by (symmetry; apply Z.ltb_ge; lia).
  apply parseTerms_fuel; lia.
Qed.

Lemma parseTerms_wholeSecondsText
  (fractionNanos : Z -> Z -> Z -> Z) (orig : string) (seconds : Z) :
  1 <= seconds ->
  seconds * time.Second < 2 ^ 63 ->
  time.parseTerms fractionNanos (String.length (wholeSecondsText seconds))
    orig (wholeSecondsText seconds) 0
  = inl (seconds * time.Second).
Proof.
  intros Hpos Hmax. unfold wholeSecondsText. cbv zeta.
  change time.Second with 1000000000 in *.
  change (2 ^ 63) with 9223372036854775808 in Hmax.
  pose proof (Z.div_mod seconds 60 ltac:(lia)) as Hsec.
  pose proof (Z.mod_pos_bound seconds 60 ltac:(lia)) as Hsec60.
  pose proof (Z.div_mod (seconds / 60) 60 ltac:(lia)) as Hmin.
  pose proof (Z.mod_pos_bound (seconds / 60) 60 ltac:(lia)) as Hmin60.
  assert (Hq : 0 <= seconds / 60) by (apply Z.div_pos; lia).
  assert (Hh : 0 <= seconds / 60 / 60) by (apply Z.div_pos; lia).
  set (sec := seconds mod 60) in *.
  set (minutes := seconds / 60) in *.
  set (min := minutes mod 60) in *.
  set (hours := minutes / 60) in *.
  assert (Hs : forall d, 0 <= d -> d + sec * 1000000000 < 2 ^ 63 ->
               time.parseTerms fractionNanos
                 (String.length (time.fmtInt "s" sec)) orig
                 (time.fmtInt "s" sec) d
               = inl (d + sec * 1000000000)).
  { intros d Hd Hsum.
    rewrite (parseTerms_one_term fractionNanos orig "s"%char EmptyString
               sec 1000000000 d);
      first [ reflexivity | lia | now left | assumption ]. }
  assert (Hm : forall d, 0 <= d ->
               d + min * 60000000000 + sec * 1000000000 < 2 ^ 63 ->
               time.parseTerms fractionNanos
                 (String.length
                    (time.fmtInt (String "m" (time.fmtInt "s" sec)) min))
                 orig (time.fmtInt (String "m" (time.fmtInt "s" sec)) min) d
               = inl (d + min * 60000000000 + sec * 1000000000)).
  { intros d Hd Hsum.
    rewrite (parseTerms_one_term fractionNanos orig "m"%char
               (time.fmtInt "s" sec) min 60000000000 d);
      first [ reflexivity | lia | idtac ].
    - apply Hs; lia.
    - right. apply fmtInt_startsWithDigit. lia. }
  change (2 ^ 63) with 9223372036854775808 in *.
  destruct (Z.ltb_spec 0 minutes) as [Hmpos | Hmzero].
  - destruct (Z.ltb_spec 0 hours) as [Hhpos | Hhzero].
    + rewrite (parseTerms_one_term fractionNanos orig "h"%char
                 (time.fmtInt (String "m" (time.fmtInt "s" sec)) min)
                 hours 3600000000000 0);
        first [ reflexivity | lia | idtac ].
      * rewrite Hm by lia. f_equal. lia.
      * right. apply fmtInt_startsWithDigit. lia.
    + rewrite Hm by lia. f_equal. lia.
  - rewrite Hs by lia. f_equal. lia.
Qed.

Lemma Duration_String_whole_seconds_parse (d : time.Duration) :
  0 < d < 2 ^ 63 -> d mod time.Second = 0 ->
  startsWithDigit (time.Duration_String d) = true
  /\ (1 < String.length (time.Duration_String d))%nat
  /\ forall fractionNanos orig,
       time.parseTerms fractionNanos (String.length (time.Duration_String d))
         orig (time.Duration_String d) 0
       = inl d.
Proof.
  intros Hd Hmod.
  assert (Hsec : d = d / time.Second * time.Second).
  { pose proof (Z.div_mod d time.Second) as H.
    change time.Second with 1000000000 in *. lia. }
  assert (Hpos : 1 <= d / time.Second).
  { change time.Second with 1000000000 in *.
    assert (0 <= d / 1000000000) by (apply Z.div_pos; lia). lia. }
  set (seconds := d / time.Second) in *.
  rewrite Hsec, Duration_String_whole_seconds by (try rewrite <- Hsec; lia).
  split; [| split].
  - unfold wholeSecondsText. cbv zeta.
    assert (0 <= seconds / 60) by (apply Z.div_pos; lia).
    assert (0 <= seconds / 60 / 60) by (apply Z.div_pos; lia).
    destruct (0 <? seconds / 60); [destruct (0 <? seconds / 60 / 60) |];
      apply fmtInt_startsWithDigit;
      first [ lia | apply Z.mod_pos_bound; lia ].
  - unfold wholeSecondsText. cbv zeta.
    assert (0 <= seconds / 60) by (apply Z.div_pos; lia).
    assert (0 <= seconds / 60 / 60) by (apply Z.div_pos; lia).
    destruct (0 <? seconds / 60); [destruct (0 <? seconds / 60 / 60) |];
      match goal with
      | |- (1 < String.length (time.fmtInt ?buf ?v))%nat =>
          pose proof (fmtInt_length buf v) as Hlen
      end;
      cbn [String.length] in Hlen;
      (assert (Hl : (1 <= 1)%nat) by lia);
      first [ lia
            | specialize (Hlen (proj1 (Z.mod_pos_bound _ 60 ltac:(lia)))); lia
            | specialize (Hlen ltac:(lia)); lia ].
  - intros fractionNanos orig.
    apply parseTerms_wholeSecondsText; [lia | rewrite <- Hsec; lia].
Qed.

Lemma ParseDuration_unsigned
  (fractionNanos : Z -> Z -> Z -> Z) (c0 : ascii) (s' : string) :
  time.isDigit c0 = true ->
  (1 < String.length (String c0 s'))%nat ->
  time.ParseDuration fractionNanos (String c0 s')
  = match time.parseTerms fractionNanos (String.length (String c0 s'))
            (String c0 s') (String c0 s') 0 with
    | inr e => inr e
    | inl d =>
        if 2 ^ 63 - 1 <? d
        then inr (time.InvalidDuration (String c0 s'))
        else inl d
    end.
Proof.
  intros Hdigit Hlen.
  destruct s' as [| c1 s'']; [simpl in Hlen; lia |].
  destruct c0 as [[] [] [] [] [] [] [] []];
    first [ discriminate Hdigit | reflexivity ].
Qed.

Lemma ParseDuration_negative
  (fractionNanos : Z -> Z -> Z -> Z) (s : string) :
  (1 < String.length s)%nat ->
  time.ParseDuration fractionNanos (String "-"%char s)
  = match time.parseTerms fractionNanos (String.length s)
            (String "-"%char s) s 0 with
    | inr e => inr e
    | inl d => inl (- d)
    end.
Proof.
  intros Hlen.
  destruct s as [| c0 [| c1 s'']]; try (simpl in Hlen; lia).
  unfold time.ParseDuration. cbv iota beta.
  replace (String.eqb (String c0 (String c1 s'')) "0") with false
    by (cbn; now destruct (Ascii.eqb c0 "0"%char)).
  reflexivity.
Qed.

Lemma ParseDuration_Duration_String_whole_seconds
  (fractionNanos : Z -> Z -> Z -> Z) (d : time.Duration) :
  - 2 ^ 63 < d < 2 ^ 63 ->
  d mod time.Second = 0 ->
  time.ParseDuration fractionNanos (time.Duration_String d) = inl d.
Proof.
  intros Hd Hmod.
  destruct (Z.lt_trichotomy d 0) as [Hneg | [-> | Hpos]].
  - assert (Hp : 0 < - d < 2 ^ 63) by lia.
    assert (Hpmod : (- d) mod time.Second = 0)
      by (apply Z.mod_opp_l_z; [discriminate | exact Hmod]).
    destruct (Duration_String_whole_seconds_parse (- d) Hp Hpmod)
      as [_ [Hlen Hparse]].
    assert (Htext : time.Duration_String d
                    = String "-"%char (time.Duration_String (- d))).
    { rewrite <- (Duration_String_of_negative (- d) Hp).
      now rewrite Z.opp_involutive. }
    rewrite Htext, (ParseDuration_negative fractionNanos _ Hlen), Hparse.
    now rewrite Z.opp_involutive.
  - reflexivity.
  - assert (Hp : 0 < d < 2 ^ 63) by lia.
    destruct (Duration_String_whole_seconds_parse d Hp Hmod)
      as [Hstart [Hlen Hparse]].
    destruct (time.Duration_String d) as [| c0 s'] eqn:Htext;
      [discriminate Hstart |].
    rewrite (ParseDuration_unsigned fractionNanos c0 s' Hstart Hlen), Hparse.
    replace (2 ^ 63 - 1 <? d) with false
      by (symmetry; apply Z.ltb_ge; lia).
    reflexivity.
Qed.

(** X12: for a negative time to live, [ttl.MarshalJSON] writes a minus
    sign after the opening quote and then the text of the absolute
    value; the sign is the only difference. *)
Theorem ttl_MarshalJSON_of_negative (t : vault.ttl) :
  0 < t < 2 ^ 63 ->
  fst (vault.ttl_MarshalJSON (- t))
  = dq ++ "-" ++ time.Duration_String t ++ dq
  /\ fst (vault.ttl_MarshalJSON t) = dq ++ time.Duration_String t ++ dq.
Proof.
  intros Ht. split; [| reflexivity].
  unfold vault.ttl_MarshalJSON. cbn [fst].
  now rewrite (Duration_String_of_negative t Ht).
Qed.

Lemma ttl_MarshalJSON_of_negative_witness :
  fst (vault.ttl_MarshalJSON (- (90 * time.Minute)))
  = dq ++ "-" ++ "1h30m0s" ++ dq.
Proof.
  refine (proj1 (ttl_MarshalJSON_of_negative (90 * time.Minute) _)).
  vm_compute. split; reflexivity.
Defined.

(** X13: what [ttl.MarshalJSON] writes for a whole number of seconds
    reads back as the same duration: the text between the quotes is
    accepted by [time.ParseDuration], which returns the time to live
    that was encoded. *)
Theorem ttl_MarshalJSON_parses_back
  (fractionNanos : Z -> Z -> Z -> Z) (t : vault.ttl) :
  - 2 ^ 63 < t < 2 ^ 63 ->
  t mod time.Second = 0 ->
  option_map (time.ParseDuration fractionNanos)
    (vault.unquote (fst (vault.ttl_MarshalJSON t)))
  = Some (inl t).
Proof.
  intros Ht Hmod.
  change (fst (vault.ttl_MarshalJSON t))
    with (dq ++ time.Duration_String t ++ dq)%string.
  rewrite unquote_quoted. cbn [option_map].
  now rewrite ParseDuration_Duration_String_whole_seconds.
Qed.

Lemma ttl_MarshalJSON_parses_back_witness :
  option_map (time.ParseDuration (fun _ _ _ => 0))
    (vault.unquote (fst (vault.ttl_MarshalJSON (720 * time.Hour))))
  = Some (inl (720 * time.Hour)).
Proof.
  apply ttl_MarshalJSON_parses_back; vm_compute;
    first [ reflexivity | split; reflexivity ].
Defined.

(** ** Populating the renewing-token durations *)

(** X14: a variable that is set is never replaced by the default.  When
    the key of [RenewBefore] is set to the empty text, populating the
    configuration fails with the error of [time.ParseDuration] instead
    of falling back to 30 minutes; when it is set to a text that
    parses, the parsed duration is stored and [TimeToLive], unset,
    still takes its default of 24 hours. *)
Theorem renewing_token_set_variable_overrides_default
  (fractionNanos : Z -> Z -> Z -> Z) (lookupEnv : string -> option string)
  (keyRB altRB keyTTL altTTL text : string) (r : envtypes.RenewingToken) :
  envconfig.lookup lookupEnv keyRB altRB = Some text ->
  envconfig.lookup lookupEnv keyTTL altTTL = None ->
  (text = EmptyString ->
   envconfig.processRenewingDurations fractionNanos lookupEnv
     keyRB altRB keyTTL altTTL r
   = inr (time.InvalidDuration EmptyString))
  /\ (forall d : time.Duration,
        time.ParseDuration fractionNanos text = inl d ->
        envconfig.processRenewingDurations fractionNanos lookupEnv
          keyRB altRB keyTTL altTTL r
        = inl (envtypes.mkRenewingToken (envtypes.Initial r) d
                 (24 * time.Hour))).
Proof.
  intros Hrb Httl.
  destruct (ParseDuration_defaults fractionNanos) as [_ Pttl].
  unfold envconfig.processRenewingDurations, envconfig.processDuration,
    envconfig.fieldText.
  rewrite Hrb, Httl.
  change (String.eqb envtypes.RenewingTimeToLive_default EmptyString)
    with false.
  cbv iota. split.
  - intros ->. reflexivity.
  - intros d Hparse. rewrite Hparse, Pttl. reflexivity.
Qed.

Lemma renewing_token_set_variable_overrides_default_witness :
  envconfig.processRenewingDurations (fun _ _ _ => 0)
    (fun key => if String.eqb key "RENEW_BEFORE" then Some "1h30m"
                else None)
    "RENEW_BEFORE" EmptyString "TIME_TO_LIVE" EmptyString
    (envtypes.mkRenewingToken "s.initial" 0 0)
  = inl (envtypes.mkRenewingToken "s.initial" (90 * time.Minute)
           (24 * time.Hour)).
Proof.
  refine (proj2 (renewing_token_set_variable_overrides_default
                   (fun _ _ _ => 0) _ "RENEW_BEFORE" EmptyString
                   "TIME_TO_LIVE" EmptyString "1h30m" _ _ _) _ _);
    reflexivity.
Defined.


Lemma fmtInt_loop_prepends (fuel : nat) :
  forall (buf : string) (v : Z),
    time.fmtInt_loop fuel buf v
    = (time.fmtInt_loop fuel EmptyString v ++ buf)%string.
Proof.
  induction fuel as [| fuel IH]; intros buf v; cbn [time.fmtInt_loop];
    [reflexivity |].
  destruct (0 <? v); [| reflexivity].
  rewrite (IH (String _ buf)), (IH (String _ EmptyString)).
  now rewrite string_append_assoc.
Qed.

Lemma fmtInt_prepends (buf : string) (v : Z) :
  time.fmtInt buf v = (time.fmtInt EmptyString v ++ buf)%string.
Proof.
  unfold time.fmtInt. destruct (v =? 0); [reflexivity |].
  apply fmtInt_loop_prepends.
Qed.

(** X15: for a whole number of seconds, [ttl.MarshalJSON] writes the
    seconds with the unit s, preceded by the minutes with the unit m
    as soon as the duration reaches a minute, and by the hours with the
    unit h as soon as it reaches an hour; no larger unit is used, and
    minutes and seconds are written even when they are zero. *)
Theorem ttl_MarshalJSON_of_whole_seconds (seconds : Z) :
  1 <= seconds ->
  seconds * time.Second < 2 ^ 63 ->
  fst (vault.ttl_MarshalJSON (seconds * time.Second))
  = dq
    ++ (if 0 <? seconds / 3600
        then time.fmtInt EmptyString (seconds / 3600) ++ "h"
        else EmptyString)
    ++ (if 0 <? seconds / 60
        then time.fmtInt EmptyString (seconds / 60 mod 60) ++ "m"
        else EmptyString)
    ++ time.fmtInt EmptyString (seconds mod 60) ++ "s"
    ++ dq.
Proof.
  intros Hpos Hmax. unfold vault.ttl_MarshalJSON. cbn [fst].
  rewrite (Duration_String_whole_seconds seconds Hpos Hmax).
  unfold wholeSecondsText. cbv zeta.
  rewrite Z.div_div by lia. change (60 * 60) with 3600.
  assert (Hq : 0 <= seconds / 60) by (apply Z.div_pos; lia).
  assert (Hle : seconds / 3600 <= seconds / 60).
  { change 3600 with (60 * 60). rewrite <- (Z.div_div seconds 60 60) by lia.
    apply Z.div_le_upper_bound; lia. }
  destruct (Z.ltb_spec 0 (seconds / 60)) as [Hm | Hm];
    [destruct (0 <? seconds / 3600)
    | replace (0 <? seconds / 3600) with false
        by (symmetry; apply Z.ltb_ge; lia)];
    rewrite ?(fmtInt_prepends (String "h" _)),
      ?(fmtInt_prepends (String "m" _)), (fmtInt_prepends "s");
    repeat (progress (rewrite ?string_append_assoc; cbn [String.append]));
    reflexivity.
Qed.

Lemma ttl_MarshalJSON_of_whole_seconds_witness :
  fst (vault.ttl_MarshalJSON (5405 * time.Second))
  = dq ++ "1h30m5s" ++ dq.
Proof.
  refine (ttl_MarshalJSON_of_whole_seconds 5405 _ _);
    vm_compute; first [ reflexivity | discriminate ].
Defined.

(** ** [otherSans.MarshalJSON]: exactly which lists survive *)

Lemma SplitByte_length (s : string) :
  List.length (strings.SplitByte s ","%char) = S (countByte ","%char s).
Proof.
  induction s as [| c s IH]; [reflexivity |].
  cbn [strings.SplitByte countByte].
  destruct (Ascii.eqb c ","%char).
  - cbn [List.length]. now rewrite IH.
  - destruct (strings.SplitByte s ","%char) as [| field fields];
      [discriminate IH | exact IH].
Qed.

Lemma countByte_append (c : ascii) (a b : string) :
  countByte c (a ++ b) = (countByte c a + countByte c b)%nat.
Proof.
  induction a as [| x a IH]; [reflexivity |].
  cbn [String.append countByte]. rewrite IH. lia.
Qed.

Lemma countByte_commaFree (s : string) :
  countByte ","%char s = O <-> vault.commaFree s = true.
Proof.
  induction s as [| c s IH]; [split; reflexivity |].
  cbn [countByte vault.commaFree].
  destruct (Ascii.eqb c ","%char); cbn [negb andb Nat.add].
  - split; intros H; discriminate H.
  - exact IH.
Qed.

Lemma countByte_Join (o : list string) :
  o <> [] ->
  forallb vault.commaFree o = false ->
  (List.length o <= countByte ","%char (strings.Join o ","))%nat.
Proof.
  induction o as [| e rest IH]; intros Hne Hcomma; [contradiction |].
  cbn [forallb] in Hcomma.
  destruct rest as [| e' rest'].
  - cbn [forallb] in Hcomma. rewrite andb_true_r in Hcomma.
    cbn [strings.Join List.length].
    destruct (countByte ","%char e) eqn:Hcount; [| lia].
    apply countByte_commaFree in Hcount. congruence.
  - rewrite Join_cons by discriminate.
    rewrite !countByte_append.
    change (countByte ","%char ",") with 1%nat.
    destruct (forallb vault.commaFree (e' :: rest')) eqn:Hrest.
    + rewrite andb_true_r in Hcomma.
      destruct (countByte ","%char e) eqn:Hcount.
      * apply countByte_commaFree in Hcount. congruence.
      * assert (Hsplit := SplitByte_length (strings.Join (e' :: rest') ",")).
        rewrite SplitByte_Join in Hsplit by (try discriminate; exact Hrest).
        cbn [List.length] in *. lia.
    + specialize (IH ltac:(discriminate) eq_refl).
      cbn [List.length] in *. lia.
Qed.

(** X16: reading back what [otherSans.MarshalJSON] wrote, by splitting
    the text between the quotes on commas, gives the original list
    exactly when the list has at least one element and no element
    holds a comma; empty elements do survive. *)
Theorem otherSans_MarshalJSON_round_trip_exactly (o : vault.otherSans) :
  vault.otherSans_decode (fst (vault.otherSans_MarshalJSON o)) = Some o
  <-> (o <> [] /\ forallb vault.commaFree o = true).
Proof.
  unfold vault.otherSans_decode.
  change (fst (vault.otherSans_MarshalJSON o))
    with (dq ++ strings.Join o "," ++ dq)%string.
  rewrite unquote_quoted. cbn [option_map]. unfold vault.splitOnCommas.
  split.
  - intros Hback. injection Hback as Hback.
    assert (Hne : o <> []) by (intros ->; discriminate Hback).
    split; [exact Hne |].
    destruct (forallb vault.commaFree o) eqn:Hfree; [reflexivity |].
    pose proof (countByte_Join o Hne Hfree) as Hcount.
    pose proof (SplitByte_length (strings.Join o ",")) as Hlen.
    rewrite Hback in Hlen. lia.
  - intros [Hne Hfree]. now rewrite SplitByte_Join.
Qed.

(** ** SAN lists inside the encoded request *)

Lemma otherSans_decode_MarshalJSON (o : vault.otherSans) :
  o <> [] ->
  forallb vault.commaFree o = true ->
  vault.otherSans_decode (fst (vault.otherSans_MarshalJSON o)) = Some o.
Proof.
  intros Hne Hfree. unfold vault.otherSans_decode.
  change (fst (vault.otherSans_MarshalJSON o))
    with (dq ++ strings.Join o "," ++ dq)%string.
  rewrite unquote_quoted. cbn [option_map]. unfold vault.splitOnCommas.
  now rewrite SplitByte_Join.
Qed.

(** ** [AuthMethod.UnmarshalText]: the aliases in any letter case *)

Lemma sameLetter_with_lowerByte (c : ascii) :
  sameLetter c (strings.lowerByte c) = true.
Proof. destruct c as [[] [] [] [] [] [] [] []]; reflexivity. Qed.

Lemma equalFold_with_lowerBytes (s : string) :
  equalFold s (strings.lowerBytes s) = true.
Proof.
  induction s as [| c s IH]; [reflexivity |].
  cbn [strings.lowerBytes equalFold].
  now rewrite sameLetter_with_lowerByte, IH.
Qed.

(** A text equals a lower-case label once lower-cased exactly when it
    is the label up to the case of its letters. *)
Lemma lowerBytes_is_label (s label : string) :
  strings.lowerBytes label = label ->
  strings.lowerBytes s = label <-> equalFold s label = true.
Proof.
  intros Hlabel. split.
  - intros <-. apply equalFold_with_lowerBytes.
  - intros Hfold. destruct (equalFold_lowerBytes s label Hfold) as [Hlow _].
    now rewrite Hlow.
Qed.

Lemma lowerBytes_in_labels (s : string) (labels : list string) :
  forallb (fun label => String.eqb (strings.lowerBytes label) label) labels
  = true ->
  In (strings.lowerBytes s) labels
  <-> existsb (equalFold s) labels = true.
Proof.
  intros Hlabels. rewrite existsb_exists.
  rewrite forallb_forall in Hlabels. split.
  - intros Hin. exists (strings.lowerBytes s). split; [exact Hin |].
    apply equalFold_with_lowerBytes.
  - intros [label [Hin Hfold]].
    specialize (Hlabels label Hin). apply String.eqb_eq in Hlabels.
    apply (lowerBytes_is_label s label Hlabels) in Hfold.
    now rewrite Hfold.
Qed.

(** C2: [AuthMethod.UnmarshalText] never returns an error.  It stores
    [ConstantTokenAuthMethod] exactly when the lower-cased input is
    constant, token or constant_token, [RenewingTokenAuthMethod]
    exactly when it is renewing or renewing_token, and
    [UnknownAuthMethod] for every other input.  The comparison ignores
    the case of the letters: an ASCII input stores
    [ConstantTokenAuthMethod] exactly when it is one of the three
    aliases written in any mix of upper and lower case, likewise for
    the two aliases of [RenewingTokenAuthMethod], and it stores
    [UnknownAuthMethod] exactly when it is none of the five. *)
Theorem AuthMethod_UnmarshalText_never_fails
  (m : string -> string) (am : envtypes.AuthMethod) (in_ : string) :
  let tag := strings.ToLower m in_ in
  let result := envtypes.AuthMethod_UnmarshalText m am in_ in
  snd result = nil_error
  /\ (In tag ["constant"; "token"; "constant_token"] <->
      fst result = envtypes.ConstantTokenAuthMethod)
  /\ (In tag ["renewing"; "renewing_token"] <->
      fst result = envtypes.RenewingTokenAuthMethod)
  /\ (~ In tag authMethodLabels <->
      fst result = envtypes.UnknownAuthMethod)
  /\ (strings.isASCII in_ = true ->
      (existsb (equalFold in_) ["constant"; "token"; "constant_token"]
       = true <->
       fst result = envtypes.ConstantTokenAuthMethod)
      /\ (existsb (equalFold in_) ["renewing"; "renewing_token"] = true <->
          fst result = envtypes.RenewingTokenAuthMethod)
      /\ (existsb (equalFold in_) authMethodLabels = false <->
          fst result = envtypes.UnknownAuthMethod)).
Proof.
  intros tag result.
  destruct (AuthMethod_UnmarshalText_by_tag m am in_)
    as [Hnil [Hconst [Hrenew Hunknown]]].
  fold tag in Hconst, Hrenew, Hunknown.
  fold result in Hnil, Hconst, Hrenew, Hunknown.
  repeat (split; [assumption |]).
  intros Hascii.
  assert (Htag : tag = strings.lowerBytes in_)
    by (apply ToLower_ascii; exact Hascii).
  rewrite Htag in Hconst, Hrenew, Hunknown.
  rewrite <- Hconst, <- Hrenew, <- Hunknown.
  rewrite !lowerBytes_in_labels by reflexivity.
  repeat split; try tauto.
  - intros H. now rewrite H.
  - intros H. now apply not_true_is_false.
Qed.

(** ** The encoded [csrOpts]: compaction, failure and omission *)

Lemma plainByte_step (c : ascii) (rest : string) :
  plainByte c = true ->
  json.step json.InString c = inl (json.InString, false)
  /\ json.htmlEscape c rest = None.
Proof.
  intros Hplain.
  destruct c as [[] [] [] [] [] [] [] []];
    first [ discriminate Hplain | split; reflexivity ].
Qed.

(** A string literal made of plain bytes is compacted to itself. *)
Lemma compactFrom_plain (body : string) :
  allBytes plainByte body = true ->
  json.compactFrom json.InString 0 (body ++ dq) = inl (body ++ dq)%string.
Proof.
  induction body as [| c body IH]; intros Hplain; [reflexivity |].
  cbn [allBytes] in Hplain. apply andb_true_iff in Hplain as [Hc Hbody].
  change (String c body ++ dq)%string with (String c (body ++ dq)).
  cbn [json.compactFrom].
  destruct (plainByte_step c (body ++ dq) Hc) as [-> ->].
  cbn [Nat.ltb Nat.leb orb Nat.pred]. now rewrite (IH Hbody).
Qed.

Lemma compact_plain
  (compactOther : string -> string + json.SyntaxError) (body : string) :
  allBytes plainByte body = true ->
  json.compact compactOther (dq ++ body ++ dq)
  = inl (dq ++ body ++ dq)%string.
Proof.
  intros Hplain. change (dq ++ body ++ dq)%string
    with (String "034"%char (body ++ dq)).
  cbn [json.compact]. now rewrite (compactFrom_plain body Hplain).
Qed.

Lemma durationByte_plainByte (c : ascii) :
  durationByte c = true -> plainByte c = true.
Proof.
  destruct c as [[] [] [] [] [] [] [] []]; intros H;
    first [ reflexivity | discriminate H ].
Qed.

(** The member ttl never makes the encoding fail, and holds what
    [ttl.MarshalJSON] returned. *)
Lemma ttl_member
  (compactOther : string -> string + json.SyntaxError) (t : vault.ttl) :
  vault.marshaledMember compactOther "ttl" "vault.ttl"
    (vault.ttl_MarshalJSON t)
  = inl [("ttl", json.Marshaled (fst (vault.ttl_MarshalJSON t)))].
Proof.
  unfold vault.marshaledMember, vault.ttl_MarshalJSON, nil_error.
  rewrite compact_plain; [reflexivity |].
  exact (allBytes_weaken _ _ _ durationByte_plainByte
           (Duration_String_durationBytes t)).
Qed.

(** A SAN list of plain elements is written as [otherSans.MarshalJSON]
    returned it. *)
Lemma sans_member_plain
  (compactOther : string -> string + json.SyntaxError)
  (key : string) (o : vault.otherSans) :
  forallb (allBytes plainByte) o = true ->
  vault.marshaledMember compactOther key "vault.otherSans"
    (vault.otherSans_MarshalJSON o)
  = inl [(key, json.Marshaled (fst (vault.otherSans_MarshalJSON o)))].
Proof.
  intros Hplain.
  unfold vault.marshaledMember, vault.otherSans_MarshalJSON, nil_error.
  rewrite compact_plain; [reflexivity |].
  now rewrite allBytes_Join.
Qed.

(** A member written through a method is one member under its key, or
    an error. *)
Lemma marshaledMember_cases
  (compactOther : string -> string + json.SyntaxError)
  (key typeName : string) (r : string * error) :
  (exists out, vault.marshaledMember compactOther key typeName r
               = inl [(key, json.Marshaled out)])
  \/ (exists e, vault.marshaledMember compactOther key typeName r = inr e).
Proof.
  unfold vault.marshaledMember. destruct r as [raw [msg |]].
  - right. eexists; reflexivity.
  - destruct (json.compact compactOther raw) as [out | e].
    + left. eexists; reflexivity.
    + right. eexists; reflexivity.
Qed.

(** What an encoding that succeeds is made of: the four members without
    [omitempty], then each of the three others when its field is not
    empty. *)
Lemma csrOpts_members_layout
  (compactOther : string -> string + json.SyntaxError)
  (o : vault.csrOpts) (members : json.object) :
  vault.csrOpts_members compactOther o = inl members ->
  exists outU outO : string,
    members
    = ([("csr", json.String_ (vault.CSR o));
        ("common_name", json.String_ (vault.CommonName o));
        ("exclude_cn_from_sans", json.Bool_ (vault.ExcludeCNFromSANS o));
        ("format", json.String_ (vault.Format o))]
       ++ (if json.isEmptySlice (vault.URISans o) then []
           else [("uri_sans", json.Marshaled outU)])
       ++ (if json.isEmptySlice (vault.OtherSans o) then []
           else [("other_sans", json.Marshaled outO)])
       ++ (if json.isEmptyInt (vault.TimeToLive o) then []
           else [("ttl",
                  json.Marshaled
                    (fst (vault.ttl_MarshalJSON (vault.TimeToLive o))))]))%list.
Proof.
  unfold vault.csrOpts_members. rewrite ttl_member.
  destruct (marshaledMember_cases compactOther "uri_sans" "vault.otherSans"
              (vault.otherSans_MarshalJSON (vault.URISans o)))
    as [[outU ->] | [eU ->]];
    destruct (marshaledMember_cases compactOther "other_sans"
                "vault.otherSans"
                (vault.otherSans_MarshalJSON (vault.OtherSans o)))
      as [[outO ->] | [eO ->]];
    unfold vault.omitempty, vault.andThen;
    destruct (json.isEmptySlice (vault.URISans o)),
      (json.isEmptySlice (vault.OtherSans o)),
      (json.isEmptyInt (vault.TimeToLive o));
    intros H; first [ discriminate H | injection H as <- ];
    first [ exists outU | exists EmptyString ];
    first [ exists outO | exists EmptyString ];
    reflexivity.
Qed.

(** With plain SAN elements the encoding succeeds. *)
Lemma csrOpts_members_plain
  (compactOther : string -> string + json.SyntaxError) (o : vault.csrOpts) :
  forallb (allBytes plainByte) (vault.URISans o) = true ->
  forallb (allBytes plainByte) (vault.OtherSans o) = true ->
  exists members : json.object,
    vault.csrOpts_members compactOther o = inl members
    /\ forall (key : string) (v : json.value),
         In (key, v) members ->
         (key = "uri_sans" ->
          v = json.Marshaled
                (fst (vault.otherSans_MarshalJSON (vault.URISans o))))
         /\ (key = "other_sans" ->
             v = json.Marshaled
                   (fst (vault.otherSans_MarshalJSON (vault.OtherSans o)))).
Proof.
  intros Huri Hother. unfold vault.csrOpts_members.
  rewrite ttl_member, (sans_member_plain _ _ _ Huri),
    (sans_member_plain _ _ _ Hother).
  unfold vault.omitempty, vault.andThen.
  destruct (json.isEmptySlice (vault.URISans o)),
    (json.isEmptySlice (vault.OtherSans o)),
    (json.isEmptyInt (vault.TimeToLive o));
    eexists; (split; [reflexivity |]);
    intros key v Hin; cbn [In app] in Hin;
    repeat (destruct Hin as [Hin | Hin];
            [injection Hin as <- <-;
             split; intros Hkey; first [ discriminate Hkey | reflexivity ] |]);
    contradiction.
Qed.

Lemma csrOpts_san_keys
  (compactOther : string -> string + json.SyntaxError)
  (o : vault.csrOpts) (members : json.object) :
  vault.csrOpts_members compactOther o = inl members ->
  (In "uri_sans" (json.keys members) <-> vault.URISans o <> [])
  /\ (In "other_sans" (json.keys members) <-> vault.OtherSans o <> []).
Proof.
  intros Henc.
  destruct (csrOpts_members_layout compactOther o members Henc)
    as [outU [outO ->]].
  pose proof (isEmptySlice_nil (vault.URISans o)) as Hu.
  pose proof (isEmptySlice_nil (vault.OtherSans o)) as Ho.
  destruct (json.isEmptySlice (vault.URISans o)),
    (json.isEmptySlice (vault.OtherSans o)),
    (json.isEmptyInt (vault.TimeToLive o));
    cbn; split; split; intros H;
    first [ tauto
          | intuition discriminate
          | intros E; apply Hu in E; discriminate E
          | intros E; apply Ho in E; discriminate E
          | exfalso; apply H; now apply Hu
          | exfalso; apply H; now apply Ho ].
Qed.

Example csrOpts_members_quote_in_a_san
  (compactOther : string -> string + json.SyntaxError) :
  vault.csrOpts_members compactOther
    (vault.mkCsrOpts "csr" "svc.example.com" false "pem"
       [("a" ++ dq ++ "b")%string] [] 0)
  = inr (json.mkMarshalerError "vault.otherSans"
           (json.InvalidJSON
              (json.InvalidCharacter "b" "after top-level value"))).
Proof. reflexivity. Qed.

Example csrOpts_members_ampersand_in_a_san
  (compactOther : string -> string + json.SyntaxError) :
  vault.csrOpts_members compactOther
    (vault.mkCsrOpts "csr" "svc.example.com" false "pem" ["a&b"] [] 0)
  = inl [("csr", json.String_ "csr");
         ("common_name", json.String_ "svc.example.com");
         ("exclude_cn_from_sans", json.Bool_ false);
         ("format", json.String_ "pem");
         ("uri_sans", json.Marshaled (dq ++ "a\u0026b" ++ dq))].
Proof. reflexivity. Qed.

(** C4, amended: [otherSans.MarshalJSON] has no sentinel, it encodes the
    empty (or nil) sequence as the empty JSON string.  The fields
    [URISans] and [OtherSans] are nevertheless left out of the wire
    form when empty, by the [omitempty] option of their tags, which
    skips an empty list before the method is called: every request
    that is encoded has the member uri_sans exactly when [URISans] is
    not empty and the member other_sans exactly when [OtherSans] is
    not empty; and a request is encoded whenever no element of the two
    lists holds a byte that JSON has to escape or that [json.Marshal]
    rewrites, in particular when both lists are empty. *)
Theorem csrOpts_omits_empty_sans
  (compactOther : string -> string + json.SyntaxError) (o : vault.csrOpts) :
  vault.otherSans_MarshalJSON [] = (dq ++ dq, nil_error)
  /\ (forall members : json.object,
        vault.csrOpts_members compactOther o = inl members ->
        (In "uri_sans" (json.keys members) <-> vault.URISans o <> [])
        /\ (In "other_sans" (json.keys members) <-> vault.OtherSans o <> []))
  /\ (forallb (allBytes plainByte) (vault.URISans o) = true ->
      forallb (allBytes plainByte) (vault.OtherSans o) = true ->
      exists members : json.object,
        vault.csrOpts_members compactOther o = inl members
        /\ (vault.URISans o = [] -> ~ In "uri_sans" (json.keys members))
        /\ (vault.OtherSans o = [] -> ~ In "other_sans" (json.keys members))).
Proof.
  split; [reflexivity |]. split.
  - intros members. apply csrOpts_san_keys.
  - intros Huri Hother.
    destruct (csrOpts_members_plain compactOther o Huri Hother)
      as [members [Henc _]].
    exists members. split; [exact Henc |].
    destruct (csrOpts_san_keys compactOther o members Henc) as [Hu Ho].
    split; intros Hempty Hin; [apply Hu in Hin | apply Ho in Hin];
      contradiction.
Qed.

(** X10: whenever a [csrOpts] is encoded, the object starts with the
    members csr, common_name, exclude_cn_from_sans and format, in this
    order and with the value of their field even when it is empty or
    false, followed by at most three optional members; no name occurs
    twice; ttl is a member exactly when the time to live is not zero,
    and it then holds the text [ttl.MarshalJSON] returned, which the
    encoder neither rejects nor rewrites.  The encoding succeeds
    whenever no SAN element holds a byte that JSON has to escape or
    that [json.Marshal] rewrites. *)
Theorem csrOpts_members_shape
  (compactOther : string -> string + json.SyntaxError) (o : vault.csrOpts) :
  (forall members : json.object,
     vault.csrOpts_members compactOther o = inl members ->
     exists optional : json.object,
       members
       = ([("csr", json.String_ (vault.CSR o));
           ("common_name", json.String_ (vault.CommonName o));
           ("exclude_cn_from_sans",
            json.Bool_ (vault.ExcludeCNFromSANS o));
           ("format", json.String_ (vault.Format o))] ++ optional)%list
       /\ NoDup (mandatoryKeys ++ json.keys optional)
       /\ (List.length optional <= 3)%nat
       /\ (In "ttl" (json.keys optional) <-> vault.TimeToLive o <> 0)
       /\ (vault.TimeToLive o <> 0 ->
           In ("ttl",
               json.Marshaled
                 (fst (vault.ttl_MarshalJSON (vault.TimeToLive o))))
              optional))
  /\ (forallb (allBytes plainByte) (vault.URISans o) = true ->
      forallb (allBytes plainByte) (vault.OtherSans o) = true ->
      exists members : json.object,
        vault.csrOpts_members compactOther o = inl members).
Proof.
  split.
  - intros members Henc.
    destruct (csrOpts_members_layout compactOther o members Henc)
      as [outU [outO ->]].
    eexists. split; [reflexivity |].
    unfold json.isEmptyInt.
    destruct (json.isEmptySlice (vault.URISans o)),
      (json.isEmptySlice (vault.OtherSans o)),
      (Z.eqb_spec (vault.TimeToLive o) 0) as [Hz | Hnz];
      (split; [unfold mandatoryKeys; cbn;
               repeat (constructor; [cbn; intuition discriminate |]);
               constructor |]);
      (split; [cbn; lia |]);
      cbn; split; try tauto; try (intuition congruence);
      try (split; intros H; [exact Hnz | tauto]);
      try (split; intros H; [intuition discriminate | contradiction]).
  - intros Huri Hother.
    destruct (csrOpts_members_plain compactOther o Huri Hother)
      as [members [Henc _]].
    now exists members.
Qed.

(** X17: the SAN lists of a request arrive intact.  When no element of
    [URISans] and [OtherSans] holds a byte that JSON has to escape or
    that [json.Marshal] rewrites, the request is encoded; a non-empty
    [URISans] without commas is then carried by a member uri_sans, and
    whatever a member of that name holds is the text
    [otherSans.MarshalJSON] returned and reads back as the list the
    caller gave, in its order; likewise [OtherSans] and the member
    other_sans. *)
Theorem csrOpts_sans_arrive_intact
  (compactOther : string -> string + json.SyntaxError) (o : vault.csrOpts) :
  forallb (allBytes plainByte) (vault.URISans o) = true ->
  forallb (allBytes plainByte) (vault.OtherSans o) = true ->
  exists members : json.object,
    vault.csrOpts_members compactOther o = inl members
    /\ (vault.URISans o <> [] ->
        forallb vault.commaFree (vault.URISans o) = true ->
        In "uri_sans" (json.keys members)
        /\ forall v : json.value,
             In ("uri_sans", v) members ->
             v = json.Marshaled
                   (fst (vault.otherSans_MarshalJSON (vault.URISans o)))
             /\ vault.otherSans_decode
                  (fst (vault.otherSans_MarshalJSON (vault.URISans o)))
                = Some (vault.URISans o))
    /\ (vault.OtherSans o <> [] ->
        forallb vault.commaFree (vault.OtherSans o) = true ->
        In "other_sans" (json.keys members)
        /\ forall v : json.value,
             In ("other_sans", v) members ->
             v = json.Marshaled
                   (fst (vault.otherSans_MarshalJSON (vault.OtherSans o)))
             /\ vault.otherSans_decode
                  (fst (vault.otherSans_MarshalJSON (vault.OtherSans o)))
                = Some (vault.OtherSans o)).
Proof.
  intros Huri Hother.
  destruct (csrOpts_members_plain compactOther o Huri Hother)
    as [members [Henc Hvalues]].
  exists members. split; [exact Henc |].
  destruct (csrOpts_san_keys compactOther o members Henc) as [Hu Ho].
  split; intros Hne Hfree.
  - split; [now apply Hu |]. intros v Hin. split.
    + now apply (Hvalues "uri_sans" v Hin).
    + now apply otherSans_decode_MarshalJSON.
  - split; [now apply Ho |]. intros v Hin. split.
    + now apply (Hvalues "other_sans" v Hin).
    + now apply otherSans_decode_MarshalJSON.
Qed.

Lemma csrOpts_sans_arrive_intact_witness :
  exists members : json.object,
    vault.csrOpts_members (fun _ => inr json.UnexpectedEnd)
      (vault.mkCsrOpts "csr" "svc.example.com" false "pem"
         ["spiffe://host/a"; "spiffe://host/b"] [] (24 * time.Hour))
    = inl members
    /\ In ("uri_sans",
           json.Marshaled (dq ++ "spiffe://host/a,spiffe://host/b" ++ dq))
          members.
Proof.
  destruct (csrOpts_sans_arrive_intact (fun _ => inr json.UnexpectedEnd)
              (vault.mkCsrOpts "csr" "svc.example.com" false "pem"
                 ["spiffe://host/a"; "spiffe://host/b"] []
                 (24 * time.Hour)) eq_refl eq_refl)
    as [members [Henc _]].
  exists members. split; [exact Henc |].
  vm_compute in Henc. injection Henc as <-.
  vm_compute. tauto.
Defined.
